(** * Task store of the Vue to-do application (stores/taskStore.ts)

    A shallow embedding of the Pinia store [useTaskStore]: the task
    collection, the two view-control values, the derived views and the
    mutation actions, together with the [localStorage] persistence that
    the store's deep watcher performs.

    Modelling conventions.
    - A JavaScript string is a Rocq [string]; every [ascii] stands for one
      UTF-16 code unit in the range U+0000..U+00FF (Latin-1).  On that
      range [trim], [toLowerCase], [includes] and the JSON quoting below
      are exact.
    - A task id is a JavaScript number holding an integer; it is a [Z],
      and [+] on ids is number addition: the exact sum rounded to the
      nearest double, ties to even ([round53]).  Sums up to 2^53 in
      magnitude are exact; 2^53 + 1 is 2^53.
    - A JavaScript array is a [list]. *)

From Stdlib Require Import ZArith NArith List Bool Ascii String Lia Arith.
From Stdlib Require Import Permutation Sorted.
Import ListNotations.
Local Open Scope string_scope.
Local Open Scope Z_scope.

(** ** Strings: the built-ins the store calls *)

Module Str.

Definition code (c : ascii) : N := N_of_ascii c.

(** WhiteSpace and LineTerminator code units (ECMAScript), Latin-1 part:
    TAB, LF, VT, FF, CR, SPACE, NBSP. *)
Definition is_white_space (c : ascii) : bool :=
  let n := code c in
  ((9 <=? n) && (n <=? 13) || (n =? 32) || (n =? 160))%N.

(** String.prototype.trimStart *)
Fixpoint trimStart (s : string) : string :=
  match s with
  | EmptyString => EmptyString
  | String c r => if is_white_space c then trimStart r else s
  end.

(** String.prototype.trimEnd *)
Fixpoint trimEnd (s : string) : string :=
  match s with
  | EmptyString => EmptyString
  | String c r =>
      match trimEnd r with
      | EmptyString => if is_white_space c then EmptyString else String c EmptyString
      | r' => String c r'
      end
  end.

(** String.prototype.trim *)
Definition trim (s : string) : string := trimEnd (trimStart s).

(** Lower-case mapping of one code unit: A-Z, and the Latin-1 capitals
    U+00C0..U+00DE except the multiplication sign U+00D7. *)
Definition lower_char (c : ascii) : ascii :=
  let n := code c in
  if ((65 <=? n) && (n <=? 90)
      || (192 <=? n) && (n <=? 222) && negb (n =? 215))%N
  then ascii_of_N (n + 32) else c.

(** String.prototype.toLowerCase *)
Fixpoint toLowerCase (s : string) : string :=
  match s with
  | EmptyString => EmptyString
  | String c r => String (lower_char c) (toLowerCase r)
  end.

(** [starts_with s p]: [p] occurs in [s] at position 0. *)
Fixpoint starts_with (s p : string) : bool :=
  match p, s with
  | EmptyString, _ => true
  | String _ _, EmptyString => false
  | String a p', String b s' => Ascii.eqb a b && starts_with s' p'
  end.

(** String.prototype.includes: [p] occurs in [s] at some position. *)
Fixpoint includes (s p : string) : bool :=
  starts_with s p ||
  match s with
  | EmptyString => false
  | String _ s' => includes s' p
  end.

(** A string is truthy iff it is not empty. *)
Definition truthy (s : string) : bool :=
  match s with EmptyString => false | _ => true end.

(** Empty or made of white space only. *)
Fixpoint blank (s : string) : bool :=
  match s with
  | EmptyString => true
  | String c r => is_white_space c && blank r
  end.

End Str.

(** ** Arrays: the built-ins the store calls *)

Module Arr.
Section Generic.
Context {A : Type}.

(** Array.prototype.find *)
Definition find (p : A -> bool) (l : list A) : option A := List.find p l.

(** Assignment to a property of the object returned by [find]: the
    array holds references, so the first element satisfying [p] is
    updated in place and every other element is untouched. *)
Fixpoint update_found (p : A -> bool) (f : A -> A) (l : list A) : list A :=
  match l with
  | [] => []
  | x :: r => if p x then f x :: r else x :: update_found p f r
  end.

(** Array.prototype.sort with a comparator.  ECMAScript requires the
    sort to be stable; [insert_sorted] puts [x], which preceded every
    element of [l] in the input, after those that the comparator
    orders strictly before it ([cmp x y > 0]) and before all others. *)
Fixpoint insert_sorted (cmp : A -> A -> Z) (x : A) (l : list A) : list A :=
  match l with
  | [] => [x]
  | y :: r => if 0 <? cmp x y then y :: insert_sorted cmp x r else x :: l
  end.

Fixpoint sort (cmp : A -> A -> Z) (l : list A) : list A :=
  match l with
  | [] => []
  | x :: r => insert_sorted cmp x (sort cmp r)
  end.
End Generic.
End Arr.

(** ** Data model *)

Record Task : Type := mkTask {
  id : Z;
  description : string;
  completed : bool
}.

(** The reactive state of the store. *)
Record Store : Type := mkStore {
  tasks : list Task;
  searchTerm : string;
  sortCriteria : string
}.

Definition with_tasks (ts : list Task) (s : Store) : Store :=
  mkStore ts (searchTerm s) (sortCriteria s).

Definition with_completed (b : bool) (t : Task) : Task :=
  mkTask (id t) (description t) b.

Definition with_description (d : string) (t : Task) : Task :=
  mkTask (id t) d (completed t).

(** ** Getters *)

(** Comparator of the 'completedFirst' branch. *)
Definition cmp_completedFirst (a b : Task) : Z :=
  if completed a && negb (completed b) then -1
  else if negb (completed a) && completed b then 1
  else 0.

(** Comparator of the 'pendingFirst' branch. *)
Definition cmp_pendingFirst (a b : Task) : Z :=
  if negb (completed a) && completed b then -1
  else if completed a && negb (completed b) then 1
  else 0.

Definition allTasks (s : Store) : list Task :=
  let filtered :=
    if Str.truthy (searchTerm s) then
      let lowerCaseSearchTerm := Str.toLowerCase (searchTerm s) in
      filter (fun task =>
                Str.includes (Str.toLowerCase (description task)) lowerCaseSearchTerm)
             (tasks s)
    else tasks s in
  if String.eqb (sortCriteria s) "completedFirst" then
    Arr.sort cmp_completedFirst filtered
  else if String.eqb (sortCriteria s) "pendingFirst" then
    Arr.sort cmp_pendingFirst filtered
  else filtered.

Definition completedTasks (s : Store) : list Task :=
  filter (fun task => completed task) (allTasks s).

Definition pendingTasks (s : Store) : list Task :=
  filter (fun task => negb (completed task)) (allTasks s).

(** ** Actions

    An action maps the store to the next store and tells whether it
    performed a reactive write under [tasks] (assignment to [tasks.value],
    a mutating array method, or a property set that changes the value);
    only such a write wakes the deep watcher that persists the
    collection. *)

Definition Action : Type := Store -> Store * bool.

(** The integer [x] as a double: exact up to 2^53 in magnitude, beyond
    that rounded to 53 significant bits, to nearest and ties to even.
    (The exponent range plays no role: adding 1 to a double never
    overflows.) *)
Definition round53 (x : Z) : Z :=
  let a := Z.abs x in
  if a <=? 2 ^ 53 then x
  else
    let ulp := 2 ^ (Z.log2 a - 52) in
    let q := a / ulp in
    let r := a mod ulp in
    let q' :=
      if 2 * r <? ulp then q
      else if ulp <? 2 * r then q + 1
      else if Z.even q then q else q + 1 in
    Z.sgn x * (q' * ulp).

(** Number addition on integer-valued numbers. *)
Definition Number_add (a b : Z) : Z := round53 (a + b).

(** [tasks.length > 0 ? Math.max(...tasks.map(task => task.id)) + 1 : 1];
    the argument list of [Math.max] is empty exactly when the array is. *)
Definition next_id (ts : list Task) : Z :=
  match map id ts with
  | [] => 1
  | i :: r => Number_add (fold_left Z.max r i) 1
  end.

Definition addTask (description : string) : Action := fun s =>
  let newTask := mkTask (next_id (tasks s)) description false in
  (with_tasks (tasks s ++ [newTask]) s, true).

Definition removeTask (i : Z) : Action := fun s =>
  (with_tasks (filter (fun task => negb (id task =? i)) (tasks s)) s, true).

Definition toggleTaskCompletion (i : Z) : Action := fun s =>
  match Arr.find (fun task => id task =? i) (tasks s) with
  | Some _ =>
      (with_tasks
         (Arr.update_found (fun task => id task =? i)
            (fun task => with_completed (negb (completed task)) task) (tasks s)) s,
       true)
  | None => (s, false)
  end.

Definition updateTaskDescription (i : Z) (newDescription : string) : Action := fun s =>
  match Arr.find (fun task => id task =? i) (tasks s) with
  | Some task =>
      (with_tasks
         (Arr.update_found (fun task => id task =? i)
            (with_description (Str.trim newDescription)) (tasks s)) s,
       negb (String.eqb (description task) (Str.trim newDescription)))
  | None => (s, false)
  end.

Definition setSearchTerm (term : string) : Action := fun s =>
  (mkStore (tasks s) term (sortCriteria s), false).

Definition setSortCriteria (criteria : string) : Action := fun s =>
  (mkStore (tasks s) (searchTerm s) criteria, false).

Definition toggleAllTasksCompletion (completedStatus : bool) : Action := fun s =>
  (with_tasks (map (with_completed completedStatus) (tasks s)) s, true).

Definition clearCompletedTasks : Action := fun s =>
  (with_tasks (filter (fun task => negb (completed task)) (tasks s)) s, true).

(** The store after an action, and whether the watcher was woken. *)
Definition after (a : Action) (s : Store) : Store := fst (a s).
Definition wakes_watcher (a : Action) (s : Store) : bool := snd (a s).

(** The public mutation operations as data, to speak of sequences. *)
Inductive Op : Type :=
| AddTask (description : string)
| RemoveTask (i : Z)
| ToggleTaskCompletion (i : Z)
| UpdateTaskDescription (i : Z) (newDescription : string)
| SetSearchTerm (term : string)
| SetSortCriteria (criteria : string)
| ToggleAllTasksCompletion (completedStatus : bool)
| ClearCompletedTasks.

Definition action_of (o : Op) : Action :=
  match o with
  | AddTask d => addTask d
  | RemoveTask i => removeTask i
  | ToggleTaskCompletion i => toggleTaskCompletion i
  | UpdateTaskDescription i d => updateTaskDescription i d
  | SetSearchTerm t => setSearchTerm t
  | SetSortCriteria c => setSortCriteria c
  | ToggleAllTasksCompletion b => toggleAllTasksCompletion b
  | ClearCompletedTasks => clearCompletedTasks
  end.

Definition apply_ops (ops : list Op) (s : Store) : Store :=
  fold_left (fun s o => after (action_of o) s) ops s.

(** The store as created when nothing is stored: no task, empty search
    term, sort criterion 'default'. *)
Definition empty_store : Store := mkStore [] "" "default".

(** The check both callers in App.vue make before [addTask] and
    [updateTaskDescription]: [text.trim() !== '']. *)
Definition caller_accepts (text : string) : bool :=
  negb (String.eqb (Str.trim text) "").

Definition caller_validated (o : Op) : bool :=
  match o with
  | AddTask d => caller_accepts d
  | UpdateTaskDescription _ d => caller_accepts d
  | _ => true
  end.

(** ** JSON: the text format of the storage slot

    [JSON.parse] on arbitrary text and [JSON.stringify] on an array of
    tasks.  Numbers are exact decimals rather than doubles. *)

Module JSON.

#[local] Set Warnings "-register-all".

Inductive value : Type :=
| Null
| Bool (b : bool)
| Num (z : Z)                      (* an integer *)
| Dec (m : Z) (k : nat)            (* m / 10^k, k > 0, 10 does not divide m *)
| Str (s : string)
| Arr (l : list value)
| Obj (members : list (string * value)).

Inductive exn : Type := SyntaxError.

(** Completion of a call.  [Unmodelled] marks input that leaves the
    model: a [\u] escape denoting a code unit above U+00FF.  [OutOfFuel]
    is the parser's recursion bound; [parse_fuel_enough] below shows that
    [parse] never ends there. *)
Inductive outcome (A : Type) : Type :=
| Returns (a : A)
| Throws (e : exn)
| Unmodelled
| OutOfFuel.
Arguments Returns {A} a.
Arguments Throws {A} e.
Arguments Unmodelled {A}.
Arguments OutOfFuel {A}.

Definition bind {A B} (x : outcome A) (k : A -> outcome B) : outcome B :=
  match x with
  | Returns a => k a
  | Throws e => Throws e
  | Unmodelled => Unmodelled
  | OutOfFuel => OutOfFuel
  end.

Notation "'let*' p ':=' x 'in' k" := (bind x (fun p => k))
  (at level 10, p pattern, x at level 100, k at level 200).

(** *** Characters *)

Definition dquote : ascii := Ascii false true false false false true false false.
Definition bslash : ascii := Ascii false false true true true false true false.

Definition is_digit (c : ascii) : bool :=
  ((48 <=? Str.code c) && (Str.code c <=? 57))%N.
Definition digit_val (c : ascii) : N := (Str.code c - 48)%N.
Definition digit_char (n : N) : ascii := ascii_of_N (48 + n).

Definition hex_val (c : ascii) : option N :=
  let n := Str.code c in
  if ((48 <=? n) && (n <=? 57))%N then Some (n - 48)%N
  else if ((97 <=? n) && (n <=? 102))%N then Some (n - 87)%N
  else if ((65 <=? n) && (n <=? 70))%N then Some (n - 55)%N
  else None.
Definition hex_char (n : N) : ascii :=
  if (n <? 10)%N then ascii_of_N (48 + n) else ascii_of_N (87 + n).

(** JSON white space: TAB, LF, CR, SPACE. *)
Definition is_ws (c : ascii) : bool :=
  let n := Str.code c in ((n =? 9) || (n =? 10) || (n =? 13) || (n =? 32))%N.

Fixpoint skip_ws (s : string) : string :=
  match s with
  | EmptyString => EmptyString
  | String c r => if is_ws c then skip_ws r else s
  end.

(** [expect lit s]: the rest of [s] after the prefix [lit]. *)
Fixpoint expect (lit s : string) : option string :=
  match lit, s with
  | EmptyString, _ => Some s
  | String _ _, EmptyString => None
  | String a lit', String b s' => if Ascii.eqb a b then expect lit' s' else None
  end.

(** *** Numbers *)

(** Number::toString of a non-negative integer, least digit first. *)
Fixpoint digits_acc (fuel : nat) (n : N) (k : string) : string :=
  match fuel with
  | O => k
  | S f =>
      if (n <? 10)%N then String (digit_char n) k
      else digits_acc f (n / 10)%N (String (digit_char (n mod 10)%N) k)
  end.

Definition string_of_N (n : N) : string :=
  digits_acc (S (N.to_nat (N.log2 n))) n "".

Definition Number_toString (z : Z) : string :=
  if z <? 0 then String "-" (string_of_N (Z.to_N (- z))) else string_of_N (Z.to_N z).

(** The digits at the head of [s]: their value on top of [acc], and the rest. *)
Fixpoint read_digits (acc : N) (s : string) : N * string :=
  match s with
  | EmptyString => (acc, s)
  | String c r =>
      if is_digit c then read_digits (10 * acc + digit_val c)%N r else (acc, s)
  end.

(** One or more digits. *)
Definition read_digits1 (s : string) : outcome (N * string) :=
  match s with
  | String c _ => if is_digit c then Returns (read_digits 0 s) else Throws SyntaxError
  | EmptyString => Throws SyntaxError
  end.

(** The integer part: [0], or a non-zero digit followed by digits. *)
Definition read_int (s : string) : outcome (N * string) :=
  match s with
  | String c r =>
      if Ascii.eqb c "0" then Returns (0%N, r) else read_digits1 s
  | EmptyString => Throws SyntaxError
  end.

(** The optional fraction: its digits as a number and how many they are. *)
Definition read_frac (s : string) : outcome (N * nat * string) :=
  match s with
  | String c r =>
      if Ascii.eqb c "." then
        let* (f, rest) := read_digits1 r in
        Returns (f, (String.length r - String.length rest)%nat, rest)
      else Returns (0%N, O, s)
  | EmptyString => Returns (0%N, O, s)
  end.

(** The optional exponent. *)
Definition read_exp (s : string) : outcome (Z * string) :=
  match s with
  | String c r =>
      if Ascii.eqb c "e" || Ascii.eqb c "E" then
        match r with
        | String sg r' =>
            if Ascii.eqb sg "-" then
              let* (e, rest) := read_digits1 r' in Returns (- Z.of_N e, rest)
            else if Ascii.eqb sg "+" then
              let* (e, rest) := read_digits1 r' in Returns (Z.of_N e, rest)
            else
              let* (e, rest) := read_digits1 r in Returns (Z.of_N e, rest)
        | EmptyString => Throws SyntaxError
        end
      else Returns (0, s)
  | EmptyString => Returns (0, s)
  end.

(** Cancel trailing zeros of [m / 10^k]. *)
Fixpoint reduce (m : Z) (k : nat) : Z * nat :=
  match k with
  | O => (m, O)
  | S k' => if m mod 10 =? 0 then reduce (m / 10) k' else (m, k)
  end.

(** The value of [mant * 10^e]. *)
Definition decimal (mant e : Z) : value :=
  if 0 <=? e then Num (mant * 10 ^ e)
  else
    match reduce mant (Z.to_nat (- e)) with
    | (m, O) => Num m
    | (m, k) => Dec m k
    end.

(** A number literal after its optional sign. *)
Definition parse_unsigned (neg : bool) (s1 : string) : outcome (value * string) :=
  let* (ip, s2) := read_int s1 in
  let* (fv, fd, s3) := read_frac s2 in
  let* (ex, s4) := read_exp s3 in
  let mant := Z.of_N ip * 10 ^ Z.of_nat fd + Z.of_N fv in
  Returns (decimal (if neg then - mant else mant) (ex - Z.of_nat fd), s4).

Definition parse_number (s : string) : outcome (value * string) :=
  match s with
  | String c r => if Ascii.eqb c "-" then parse_unsigned true r else parse_unsigned false s
  | EmptyString => parse_unsigned false s
  end.

(** *** Strings *)

(** The character denoted by a one-letter escape. *)
Definition simple_escape (e : ascii) : option ascii :=
  if Ascii.eqb e dquote then Some dquote
  else if Ascii.eqb e bslash then Some bslash
  else if Ascii.eqb e "/" then Some "/"%char
  else if Ascii.eqb e "b" then Some (ascii_of_N 8)
  else if Ascii.eqb e "f" then Some (ascii_of_N 12)
  else if Ascii.eqb e "n" then Some (ascii_of_N 10)
  else if Ascii.eqb e "r" then Some (ascii_of_N 13)
  else if Ascii.eqb e "t" then Some (ascii_of_N 9)
  else None.

Definition hex4 (a b c d : ascii) : option N :=
  match hex_val a, hex_val b, hex_val c, hex_val d with
  | Some x, Some y, Some z, Some w => Some (((x * 16 + y) * 16 + z) * 16 + w)%N
  | _, _, _, _ => None
  end.

(** The characters of a string literal after its opening quote, up to
    and including the closing quote. *)
Fixpoint parse_chars (s : string) : outcome (string * string) :=
  match s with
  | EmptyString => Throws SyntaxError
  | String c r =>
      if Ascii.eqb c dquote then Returns (EmptyString, r)
      else if Ascii.eqb c bslash then
        match r with
        | EmptyString => Throws SyntaxError
        | String e r1 =>
            match simple_escape e with
            | Some x =>
                let* (str, rest) := parse_chars r1 in Returns (String x str, rest)
            | None =>
                if Ascii.eqb e "u" then
                  match r1 with
                  | String h1 (String h2 (String h3 (String h4 r2))) =>
                      match hex4 h1 h2 h3 h4 with
                      | Some n =>
                          if (n <? 256)%N then
                            let* (str, rest) := parse_chars r2 in
                            Returns (String (ascii_of_N n) str, rest)
                          else Unmodelled
                      | None => Throws SyntaxError
                      end
                  | _ => Throws SyntaxError
                  end
                else Throws SyntaxError
            end
        end
      else if (Str.code c <? 32)%N then Throws SyntaxError
      else let* (str, rest) := parse_chars r in Returns (String c str, rest)
  end.

(** QuoteJSONString, one code unit. *)
Definition quote_char (c : ascii) : string :=
  let n := Str.code c in
  if Ascii.eqb c dquote then String bslash (String dquote "")
  else if Ascii.eqb c bslash then String bslash (String bslash "")
  else if (n =? 8)%N then String bslash "b"
  else if (n =? 12)%N then String bslash "f"
  else if (n =? 10)%N then String bslash "n"
  else if (n =? 13)%N then String bslash "r"
  else if (n =? 9)%N then String bslash "t"
  else if (n <? 32)%N then
    String bslash
      (String "u" (String "0" (String "0"
         (String (hex_char (n / 16)) (String (hex_char (n mod 16)) "")))))
  else String c "".

Fixpoint quote_chars (s : string) : string :=
  match s with
  | EmptyString => EmptyString
  | String c r => quote_char c ++ quote_chars r
  end.

Definition quote (s : string) : string :=
  String dquote (quote_chars s ++ String dquote "").

(** *** Values *)

(** CreateDataProperty on the object under construction: a repeated
    key keeps its place and takes the later value. *)
Fixpoint obj_set (k : string) (v : value) (o : list (string * value))
  : list (string * value) :=
  match o with
  | [] => [(k, v)]
  | (k', v') :: r => if String.eqb k' k then (k', v) :: r else (k', v') :: obj_set k v r
  end.

Definition obj_of_members (ms : list (string * value)) : list (string * value) :=
  fold_left (fun o kv => obj_set (fst kv) (snd kv) o) ms [].

Section Containers.
(** The parser of one value, at the enclosing nesting depth. *)
Variable parse_one : string -> outcome (value * string).

(** Elements of a non-empty array, after the opening bracket. *)
Fixpoint parse_elements (n : nat) (s : string) : outcome (list value * string) :=
  match n with
  | O => OutOfFuel
  | S n' =>
      let* (v, r) := parse_one s in
      match skip_ws r with
      | String c r' =>
          if Ascii.eqb c "," then
            let* (vs, rest) := parse_elements n' r' in Returns (v :: vs, rest)
          else if Ascii.eqb c "]" then Returns ([v], r')
          else Throws SyntaxError
      | EmptyString => Throws SyntaxError
      end
  end.

(** Members of a non-empty object, after the opening brace. *)
Fixpoint parse_members (n : nat) (s : string)
  : outcome (list (string * value) * string) :=
  match n with
  | O => OutOfFuel
  | S n' =>
      match skip_ws s with
      | String q r =>
          if Ascii.eqb q dquote then
            let* (key, r1) := parse_chars r in
            match skip_ws r1 with
            | String c r2 =>
                if Ascii.eqb c ":" then
                  let* (v, r3) := parse_one r2 in
                  match skip_ws r3 with
                  | String c' r4 =>
                      if Ascii.eqb c' "," then
                        let* (ms, rest) := parse_members n' r4 in
                        Returns ((key, v) :: ms, rest)
                      else if Ascii.eqb c' "}" then Returns ([(key, v)], r4)
                      else Throws SyntaxError
                  | EmptyString => Throws SyntaxError
                  end
                else Throws SyntaxError
            | EmptyString => Throws SyntaxError
            end
          else Throws SyntaxError
      | EmptyString => Throws SyntaxError
      end
  end.
End Containers.

(** One JSON value at the head of [s], leading white space skipped.
    [fuel] bounds the nesting depth and the number of elements of a
    container; every recursive call follows a consumed character, so
    the length of the text is enough. *)
Fixpoint parse_value (fuel : nat) (s : string) : outcome (value * string) :=
  match fuel with
  | O => OutOfFuel
  | S f =>
      match skip_ws s with
      | EmptyString => Throws SyntaxError
      | String c r =>
          if Ascii.eqb c "[" then
            match skip_ws r with
            | String c' r' =>
                if Ascii.eqb c' "]" then Returns (Arr [], r')
                else
                  let* (vs, rest) := parse_elements (parse_value f) f r in
                  Returns (Arr vs, rest)
            | EmptyString => Throws SyntaxError
            end
          else if Ascii.eqb c "{" then
            match skip_ws r with
            | String c' r' =>
                if Ascii.eqb c' "}" then Returns (Obj [], r')
                else
                  let* (ms, rest) := parse_members (parse_value f) f r in
                  Returns (Obj (obj_of_members ms), rest)
            | EmptyString => Throws SyntaxError
            end
          else if Ascii.eqb c dquote then
            let* (str, rest) := parse_chars r in Returns (Str str, rest)
          else if Ascii.eqb c "t" then
            match expect "rue" r with
            | Some rest => Returns (Bool true, rest)
            | None => Throws SyntaxError
            end
          else if Ascii.eqb c "f" then
            match expect "alse" r with
            | Some rest => Returns (Bool false, rest)
            | None => Throws SyntaxError
            end
          else if Ascii.eqb c "n" then
            match expect "ull" r with
            | Some rest => Returns (Null, rest)
            | None => Throws SyntaxError
            end
          else if Ascii.eqb c "-" || is_digit c then parse_number (String c r)
          else Throws SyntaxError
      end
  end.

(** JSON.parse: one value, then nothing but white space. *)
Definition parse (text : string) : outcome value :=
  let* (v, rest) := parse_value (S (String.length text)) text in
  match skip_ws rest with
  | EmptyString => Returns v
  | String _ _ => Throws SyntaxError
  end.

(** *** Tasks as JSON *)

Definition of_task (t : Task) : value :=
  Obj [("id", Num (id t));
       ("description", Str (description t));
       ("completed", Bool (completed t))].

Definition of_tasks (ts : list Task) : value := Arr (map of_task ts).

Definition stringify_bool (b : bool) : string := if b then "true" else "false".

(** SerializeJSONObject of a task: own properties in creation order,
    no white space. *)
Definition stringify_task (t : Task) : string :=
  "{" ++ quote "id" ++ ":" ++ Number_toString (id t)
      ++ "," ++ quote "description" ++ ":" ++ quote (description t)
      ++ "," ++ quote "completed" ++ ":" ++ stringify_bool (completed t) ++ "}".

(** Elements separated by commas. *)
Fixpoint join_tasks (ts : list Task) : string :=
  match ts with
  | [] => ""
  | [t] => stringify_task t
  | t :: r => stringify_task t ++ "," ++ join_tasks r
  end.

(** JSON.stringify of the task array. *)
Definition stringify (ts : list Task) : string := "[" ++ join_tasks ts ++ "]".

(** Reading a parsed value at the type [Task[]]: every element is an
    object whose properties id, description and completed are a number,
    a string and a boolean. *)
Fixpoint lookup (k : string) (ms : list (string * value)) : option value :=
  match ms with
  | [] => None
  | (k', v) :: r => if String.eqb k' k then Some v else lookup k r
  end.

Definition as_task (v : value) : option Task :=
  match v with
  | Obj ms =>
      match lookup "id" ms, lookup "description" ms, lookup "completed" ms with
      | Some (Num i), Some (Str d), Some (Bool c) => Some (mkTask i d c)
      | _, _, _ => None
      end
  | _ => None
  end.

Fixpoint as_task_list (l : list value) : option (list Task) :=
  match l with
  | [] => Some []
  | v :: r =>
      match as_task v, as_task_list r with
      | Some t, Some ts => Some (t :: ts)
      | _, _ => None
      end
  end.

Definition as_tasks (v : value) : option (list Task) :=
  match v with
  | Arr l => as_task_list l
  | _ => None
  end.

(** *** Predicates used to state the parser's properties *)

(** The text after a number does not continue it. *)
Definition ends_number (rest : string) : bool :=
  match rest with
  | EmptyString => true
  | String c _ => negb (is_digit c || Ascii.eqb c "." || Ascii.eqb c "e" || Ascii.eqb c "E")
  end.

(** A parsing step on [s] did not run out of fuel, and what it left is
    no longer than [s]. *)
Definition within {A : Type} (s : string) (o : outcome (A * string)) : Prop :=
  match o with
  | Returns (_, rest) => (String.length rest <= String.length s)%nat
  | OutOfFuel => False
  | _ => True
  end.

(** A parsing step on [s] did not run out of fuel, and consumed at least
    one character if it returned. *)
Definition advances {A : Type} (s : string) (o : outcome (A * string)) : Prop :=
  match o with
  | Returns (_, rest) => (String.length rest < String.length s)%nat
  | OutOfFuel => False
  | _ => True
  end.

End JSON.

(** ** Persistence *)

(** The content of the localStorage slot 'tasks'; [None] when the key is
    absent ([getItem] returns null). *)
Definition Slot : Type := option string.

(** [JSON.parse(localStorage.getItem('tasks') || '[]')]: the value the
    ref [tasks] is created with.  Nothing surrounds the call, so the
    store's setup function throws when it does. *)
Definition load (slot : Slot) : JSON.outcome JSON.value :=
  JSON.parse
    match slot with
    | Some text => if Str.truthy text then text else "[]"
    | None => "[]"
    end.

(** The store created by [useTaskStore] when the loaded value is a task
    array. *)
Definition useTaskStore (slot : Slot) : JSON.outcome (option Store) :=
  JSON.bind (load slot)
    (fun v => JSON.Returns
                (option_map (fun ts => mkStore ts "" "default") (JSON.as_tasks v))).

(** The watcher callback:
    [localStorage.setItem('tasks', JSON.stringify(newTasks))]. *)
Definition save (newTasks : list Task) : Slot := Some (JSON.stringify newTasks).

(** The store in its page: the slot, and the texts [setItem] was called
    with, latest first. *)
Record Page : Type := mkPage {
  store : Store;
  slot : Slot;
  setItem_calls : list string
}.

(** An action dispatched by the page; the watcher runs once after it if
    the action woke it. *)
Definition dispatch (a : Action) (p : Page) : Page :=
  let '(s', woken) := a (store p) in
  if woken then
    mkPage s' (save (tasks s')) (JSON.stringify (tasks s') :: setItem_calls p)
  else mkPage s' (slot p) (setItem_calls p).

(** ** Reference definitions, following the specification's wording *)

Module Reference.

(** Equal up to letter case, position by position. *)
Fixpoint ci_starts_with (s p : string) : bool :=
  match p, s with
  | EmptyString, _ => true
  | String _ _, EmptyString => false
  | String a p', String b s' =>
      Ascii.eqb (Str.lower_char a) (Str.lower_char b) && ci_starts_with s' p'
  end.

(** [p] is a case-insensitive substring of [s]. *)
Fixpoint ci_contains (s p : string) : bool :=
  ci_starts_with s p ||
  match s with
  | EmptyString => false
  | String _ s' => ci_contains s' p
  end.

(** Stage one: keep the tasks whose description contains the term. *)
Definition keep (term : string) (ts : list Task) : list Task :=
  filter (fun t => ci_contains (description t) term) ts.

(** Stage two: stable reorder by completion flag. *)
Definition reorder (criterion : string) (ts : list Task) : list Task :=
  if String.eqb criterion "completedFirst" then
    filter (fun t => completed t) ts ++ filter (fun t => negb (completed t)) ts
  else if String.eqb criterion "pendingFirst" then
    filter (fun t => negb (completed t)) ts ++ filter (fun t => completed t) ts
  else ts.

Definition allTasks (s : Store) : list Task :=
  reorder (sortCriteria s) (keep (searchTerm s) (tasks s)).

End Reference.

(** Pairwise distinct ids. *)
Definition unique_ids (ts : list Task) : Prop := NoDup (map id ts).

(** Every id, and every id increased by [k], lies within [-2^53, 2^53],
    where integers are exact: there is room for [k] more calls of
    [addTask]. *)
Definition safe_ids (k : nat) (ts : list Task) : Prop :=
  Z.of_nat k <= 2 ^ 53
  /\ Forall (fun t => - 2 ^ 53 <= id t /\ id t + Z.of_nat k <= 2 ^ 53) ts.

(** No description is empty or white space only. *)
Definition no_blank_description (ts : list Task) : Prop :=
  Forall (fun t => Str.blank (description t) = false) ts.

(** ** The component (App.vue)

    The script of the single component: its own reactive state, the
    handlers it binds, and the events its template can raise.  The page
    of the component holds the store and the storage slot.  [alert] is
    a browser effect; the texts it was called with are kept, latest
    first.  The DOM focus that [editTask] schedules with [nextTick] and
    the watcher that logs [filteredTasks] to the console touch neither
    the component's nor the store's state and are left out. *)

Definition o_acute : ascii := ascii_of_N 243.
Definition i_acute : ascii := ascii_of_N 237.

(** 'Por favor, introduce la descripcion de la tarea.' (with o acute) *)
Definition alert_add : string :=
  "Por favor, introduce la descripci" ++ String o_acute "n de la tarea.".

(** 'La descripcion de la tarea no puede estar vacia.' (with o and i acute) *)
Definition alert_edit : string :=
  "La descripci" ++ String o_acute
    ("n de la tarea no puede estar vac" ++ String i_acute "a.").

Record App : Type := mkApp {
  page : Page;
  newTaskDescription : string;
  currentFilter : string;
  editingTaskId : option Z;
  editingTaskDescription : string;
  alerts : list string
}.

(** The component as set up on a page: empty input, filter 'all', no
    task in edition. *)
Definition mount (p : Page) : App := mkApp p "" "all" None "" [].

Definition handleAddTask (a : App) : App :=
  if negb (String.eqb (Str.trim (newTaskDescription a)) "") then
    mkApp (dispatch (addTask (newTaskDescription a)) (page a))
          "" (currentFilter a) (editingTaskId a) (editingTaskDescription a) (alerts a)
  else
    mkApp (page a) (newTaskDescription a) (currentFilter a) (editingTaskId a)
          (editingTaskDescription a) (alert_add :: alerts a).

Definition filteredTasks (a : App) : list Task :=
  if String.eqb (currentFilter a) "completed" then completedTasks (store (page a))
  else if String.eqb (currentFilter a) "pending" then pendingTasks (store (page a))
  else allTasks (store (page a)).

Definition saveEdit (a : App) : App :=
  match editingTaskId a with
  | None => a
  | Some i =>
      if String.eqb (Str.trim (editingTaskDescription a)) "" then
        mkApp (page a) (newTaskDescription a) (currentFilter a) (editingTaskId a)
              (editingTaskDescription a) (alert_edit :: alerts a)
      else
        mkApp (dispatch (updateTaskDescription i (editingTaskDescription a)) (page a))
              (newTaskDescription a) (currentFilter a) None
              (editingTaskDescription a) (alerts a)
  end.

(** [task] is the object of the clicked row.  [saveEdit], when called,
    writes to a task of another id, so the row's description is the same
    before and after it. *)
Definition editTask (task : Task) (a : App) : App :=
  let a' :=
    match editingTaskId a with
    | Some i => if negb (i =? id task) then saveEdit a else a
    | None => a
    end in
  mkApp (page a') (newTaskDescription a') (currentFilter a')
        (Some (id task)) (description task) (alerts a').

(** The three filter buttons and the three sort buttons. *)
Inductive FilterButton : Type := Todas | Pendientes | Completadas.
Inductive SortButton : Type := PorDefecto | PendientesPrimero | CompletadasPrimero.

Definition filter_value (b : FilterButton) : string :=
  match b with Todas => "all" | Pendientes => "pending" | Completadas => "completed" end.

Definition sort_value (b : SortButton) : string :=
  match b with
  | PorDefecto => "default"
  | PendientesPrimero => "pendingFirst"
  | CompletadasPrimero => "completedFirst"
  end.

(** What the template lets the user do.  A row is named by its position
    in the displayed list. *)
Inductive Event : Type :=
| TypeNewTask (text : string)       (* v-model newTaskDescription *)
| SubmitNewTask                     (* Enter in the input, or the add button *)
| TypeSearch (text : string)        (* v-model taskStore.searchTerm *)
| ClickFilter (b : FilterButton)
| ClickSort (b : SortButton)
| ClickMarkAll (completedStatus : bool)
| ClickClearCompleted
| ClickCheckbox (row : nat)
| TypeEdit (text : string)          (* v-model editingTaskDescription *)
| CommitEdit                        (* Enter or blur in the edit input, or the save button *)
| ClickEdit (row : nat)
| ClickDelete (row : nat).

Definition on_page (f : Page -> Page) (a : App) : App :=
  mkApp (f (page a)) (newTaskDescription a) (currentFilter a) (editingTaskId a)
        (editingTaskDescription a) (alerts a).

(** The row under edition shows the save button in place of the edit
    button; a position past the displayed list names no row. *)
Definition handle (e : Event) (a : App) : App :=
  match e with
  | TypeNewTask text =>
      mkApp (page a) text (currentFilter a) (editingTaskId a)
            (editingTaskDescription a) (alerts a)
  | SubmitNewTask => handleAddTask a
  | TypeSearch text => on_page (dispatch (setSearchTerm text)) a
  | ClickFilter b =>
      mkApp (page a) (newTaskDescription a) (filter_value b) (editingTaskId a)
            (editingTaskDescription a) (alerts a)
  | ClickSort b => on_page (dispatch (setSortCriteria (sort_value b))) a
  | ClickMarkAll b => on_page (dispatch (toggleAllTasksCompletion b)) a
  | ClickClearCompleted => on_page (dispatch clearCompletedTasks) a
  | ClickCheckbox row =>
      match nth_error (filteredTasks a) row with
      | Some task => on_page (dispatch (toggleTaskCompletion (id task))) a
      | None => a
      end
  | TypeEdit text =>
      mkApp (page a) (newTaskDescription a) (currentFilter a) (editingTaskId a)
            text (alerts a)
  | CommitEdit => saveEdit a
  | ClickEdit row =>
      match nth_error (filteredTasks a) row with
      | Some task =>
          match editingTaskId a with
          | Some i => if i =? id task then a else editTask task a
          | None => editTask task a
          end
      | None => a
      end
  | ClickDelete row =>
      match nth_error (filteredTasks a) row with
      | Some task => on_page (dispatch (removeTask (id task))) a
      | None => a
      end
  end.

Definition handle_all (es : list Event) (a : App) : App :=
  fold_left (fun a e => handle e a) es a.

(** ** Further notions used in the properties *)

(** Actions dispatched one after the other. *)
Definition dispatch_all (ops : list Op) (p : Page) : Page :=
  fold_left (fun p o => dispatch (action_of o) p) ops p.

(** Opening the page again on the present slot gives the present
    collection. *)
Definition reloads (p : Page) : Prop :=
  useTaskStore (slot p) = JSON.Returns (Some (mkStore (tasks (store p)) "" "default")).

(** The slot holds the latest text written, which is the JSON text of
    the whole collection. *)
Definition mirrors (p : Page) : Prop :=
  match setItem_calls p with
  | [] => True
  | text :: _ => slot p = Some text /\ text = JSON.stringify (tasks (store p))
  end.

(** Ids grow strictly along the collection. *)
Definition ids_increasing (ts : list Task) : Prop :=
  StronglySorted Z.lt (map id ts).

(** The tasks [addTask] builds from the texts [ds] on the empty store. *)
Definition numbered (ds : list string) : list Task :=
  map (fun kd => mkTask (Z.of_nat (fst kd)) (snd kd) false)
      (combine (seq 1 (List.length ds)) ds).

(** The last code unit of a string, if any. *)
Fixpoint last_char (s : string) : option ascii :=
  match s with
  | EmptyString => None
  | String c EmptyString => Some c
  | String _ r => last_char r
  end.

Definition first_char (s : string) : option ascii :=
  match s with
  | EmptyString => None
  | String c _ => Some c
  end.

Definition not_white (c : option ascii) : Prop :=
  match c with
  | Some x => Str.is_white_space x = false
  | None => True
  end.

(** * Properties *)

(** ** Records *)

Lemma Store_eta (s : Store) : mkStore (tasks s) (searchTerm s) (sortCriteria s) = s.
Proof. destruct s; reflexivity. Qed.

Lemma with_tasks_same (s : Store) : with_tasks (tasks s) s = s.
Proof. apply Store_eta. Qed.

Lemma Task_eta (t : Task) : mkTask (id t) (description t) (completed t) = t.
Proof. destruct t; reflexivity. Qed.

(** ** Arrays *)

Section ArrayFacts.
Context {A : Type}.
Variable p : A -> bool.

Lemma filter_all (l : list A) :
  (forall x, In x l -> p x = true) -> filter p l = l.
Proof.
  induction l as [|x r IH]; intros H; simpl; [reflexivity|].
  rewrite (H x (or_introl eq_refl)). f_equal. apply IH.
  intros y Hy. apply H. right. exact Hy.
Qed.

Lemma find_none_update (f : A -> A) (l : list A) :
  Arr.find p l = None -> Arr.update_found p f l = l.
Proof.
  unfold Arr.find. induction l as [|x r IH]; simpl; [reflexivity|].
  destruct (p x); [discriminate|]. intros H. now rewrite IH.
Qed.

Lemma update_found_map {B : Type} (g : A -> B) (f : A -> A) (l : list A) :
  (forall x, g (f x) = g x) -> map g (Arr.update_found p f l) = map g l.
Proof.
  intros Hf. induction l as [|x r IH]; simpl; [reflexivity|].
  destruct (p x); simpl; [now rewrite Hf | now rewrite IH].
Qed.

Lemma update_found_twice (f : A -> A) (l : list A) :
  (forall x, p (f x) = p x) -> (forall x, f (f x) = x) ->
  Arr.update_found p f (Arr.update_found p f l) = l.
Proof.
  intros Hp Hf. induction l as [|x r IH]; simpl; [reflexivity|].
  destruct (p x) eqn:E; simpl.
  - now rewrite Hp, E, Hf.
  - now rewrite E, IH.
Qed.

Lemma find_update_found (f : A -> A) (l : list A) (x : A) :
  (forall y, p (f y) = p y) ->
  Arr.find p l = Some x -> Arr.find p (Arr.update_found p f l) = Some (f x).
Proof.
  intros Hp. unfold Arr.find. induction l as [|y r IH]; simpl; [discriminate|].
  destruct (p y) eqn:E; simpl.
  - intros [= ->]. now rewrite Hp, E.
  - rewrite E. exact IH.
Qed.

Lemma update_found_Forall (P : A -> Prop) (f : A -> A) (l : list A) :
  (forall x, P (f x)) -> Forall P l -> Forall P (Arr.update_found p f l).
Proof.
  intros Hf. induction 1 as [|x r Hx Hr IH]; simpl; [constructor|].
  destruct (p x); constructor; auto.
Qed.
End ArrayFacts.

Lemma NoDup_map_filter {A B : Type} (g : A -> B) (p : A -> bool) (l : list A) :
  NoDup (map g l) -> NoDup (map g (filter p l)).
Proof.
  induction l as [|x r IH]; simpl; intros H; [constructor|].
  inversion H as [|? ? Hx Hr]; subst.
  destruct (p x); simpl; [constructor|]; auto.
  intros Hin. apply Hx. apply in_map_iff in Hin as (y & Hy & Hin).
  apply in_map_iff. exists y. split; [exact Hy|].
  apply filter_In in Hin. tauto.
Qed.

(** ** The id of a new task *)

Lemma fold_max_ge (r : list Z) (i : Z) :
  i <= fold_left Z.max r i /\ Forall (fun x => x <= fold_left Z.max r i) r.
Proof.
  revert i. induction r as [|x r IH]; intros i; simpl.
  - split; [lia | constructor].
  - destruct (IH (Z.max i x)) as [H1 H2]. split; [lia|].
    constructor; [lia | exact H2].
Qed.

Lemma fold_max_in (r : list Z) (i : Z) : In (fold_left Z.max r i) (i :: r).
Proof.
  revert i. induction r as [|x r IH]; intros i; simpl; [now left|].
  destruct (IH (Z.max i x)) as [H | H].
  - destruct (Z.max_spec i x) as [[_ E] | [_ E]]; rewrite E in *; auto.
  - right. right. exact H.
Qed.

Lemma round53_exact (x : Z) : Z.abs x <= 2 ^ 53 -> round53 x = x.
Proof.
  intros H. unfold round53. cbv zeta.
  destruct (Z.leb_spec (Z.abs x) (2 ^ 53)); [reflexivity | lia].
Qed.

(** Where there is room for one more id, [next_id] is 1 on the empty
    collection and otherwise one more than an id of the collection that
    no other id exceeds. *)
Lemma next_id_spec (ts : list Task) :
  safe_ids 1 ts ->
  (ts = [] /\ next_id ts = 1) \/
  (Exists (fun t => next_id ts = id t + 1) ts /\
   Forall (fun t => id t < next_id ts) ts).
Proof.
  intros [_ S].
  destruct ts as [|t r]; [left; split; reflexivity | right].
  unfold next_id, Number_add. simpl map.
  pose proof (fold_max_ge (map id r) (id t)) as [H1 H2].
  pose proof (fold_max_in (map id r) (id t)) as H3.
  set (m := fold_left Z.max (map id r) (id t)) in *.
  assert (B : - 2 ^ 53 <= m /\ m + 1 <= 2 ^ 53).
  { rewrite Forall_forall in S.
    destruct H3 as [H | H].
    - rewrite <- H. apply (S t). now left.
    - apply in_map_iff in H as (u & <- & Hin). apply (S u). now right. }
  rewrite round53_exact by lia.
  split.
  - destruct H3 as [H | H].
    + apply Exists_cons_hd. now rewrite H.
    + apply Exists_cons_tl. apply in_map_iff in H as (u & Hu & Hin).
      apply Exists_exists. exists u. split; [exact Hin | now rewrite Hu].
  - constructor; [lia|].
    apply Forall_forall. intros u Hu.
    rewrite Forall_forall in H2. specialize (H2 (id u) (in_map id r u Hu)). lia.
Qed.

Lemma next_id_above (ts : list Task) :
  safe_ids 1 ts -> Forall (fun t => id t < next_id ts) ts.
Proof.
  intros S. destruct (next_id_spec ts S) as [[-> _] | [_ H]]; [constructor | exact H].
Qed.

Lemma next_id_fresh (ts : list Task) :
  safe_ids 1 ts -> ~ In (next_id ts) (map id ts).
Proof.
  intros S H. apply in_map_iff in H as (t & Ht & Hin).
  pose proof (next_id_above ts S) as F. rewrite Forall_forall in F.
  specialize (F t Hin). lia.
Qed.

(** The new id leaves room for the calls that remain. *)
Lemma next_id_room (k : nat) (ts : list Task) :
  safe_ids (S k) ts ->
  - 2 ^ 53 <= next_id ts /\ next_id ts + Z.of_nat k <= 2 ^ 53.
Proof.
  intros [K S].
  assert (S1 : safe_ids 1 ts).
  { split; [lia|]. apply Forall_forall. intros t Ht.
    rewrite Forall_forall in S. specialize (S t Ht). lia. }
  destruct (next_id_spec ts S1) as [[_ ->] | [E _]]; [lia|].
  apply Exists_exists in E as (t & Ht & ->).
  rewrite Forall_forall in S. specialize (S t Ht). lia.
Qed.

Lemma safe_ids_less (k : nat) (ts : list Task) : safe_ids (S k) ts -> safe_ids k ts.
Proof.
  intros [K S]. split; [lia|]. apply Forall_forall. intros t Ht.
  rewrite Forall_forall in S. specialize (S t Ht). lia.
Qed.

Lemma safe_ids_one (k : nat) (ts : list Task) : safe_ids (S k) ts -> safe_ids 1 ts.
Proof.
  intros [K S]. split; [lia|]. apply Forall_forall. intros t Ht.
  rewrite Forall_forall in S. specialize (S t Ht). lia.
Qed.

Lemma remove_absent (i : Z) (ts : list Task) :
  ~ In i (map id ts) -> filter (fun task => negb (id task =? i)) ts = ts.
Proof.
  intros H. apply filter_all. intros t Ht.
  destruct (Z.eqb_spec (id t) i) as [E|]; [|reflexivity].
  exfalso. apply H. rewrite <- E. now apply in_map.
Qed.

Lemma find_absent (i : Z) (ts : list Task) :
  ~ In i (map id ts) -> Arr.find (fun task => id task =? i) ts = None.
Proof.
  intros H. unfold Arr.find.
  destruct (find _ ts) as [t|] eqn:E; [|reflexivity].
  apply find_some in E as [Hin Hid]. apply Z.eqb_eq in Hid.
  exfalso. apply H. rewrite <- Hid. now apply in_map.
Qed.

(** ** Strings *)

Lemma blank_trimStart (s : string) : Str.blank (Str.trimStart s) = Str.blank s.
Proof.
  induction s as [|c r IH]; simpl; [reflexivity|].
  destruct (Str.is_white_space c) eqn:E; simpl; [exact IH | now rewrite E].
Qed.

Lemma blank_trimEnd (s : string) : Str.blank (Str.trimEnd s) = Str.blank s.
Proof.
  induction s as [|c r IH]; simpl; [reflexivity|].
  destruct (Str.trimEnd r) as [|c' r'] eqn:E.
  - simpl in IH. rewrite <- IH.
    destruct (Str.is_white_space c) eqn:W; simpl; [reflexivity | now rewrite W].
  - change (Str.blank (String c (String c' r'))) with
      (Str.is_white_space c && Str.blank (String c' r')).
    now rewrite IH.
Qed.

Lemma blank_trim (s : string) : Str.blank (Str.trim s) = Str.blank s.
Proof. unfold Str.trim. now rewrite blank_trimEnd, blank_trimStart. Qed.

Lemma trimStart_blank (s : string) : Str.blank s = true -> Str.trimStart s = "".
Proof.
  induction s as [|c r IH]; simpl; [reflexivity|].
  destruct (Str.is_white_space c); simpl; [exact IH | discriminate].
Qed.

Lemma trim_blank (s : string) : Str.blank s = true -> Str.trim s = "".
Proof. intros H. unfold Str.trim. now rewrite (trimStart_blank s H). Qed.

(** What the callers check is that the text is not blank. *)
Lemma caller_accepts_not_blank (text : string) :
  caller_accepts text = true -> Str.blank text = false.
Proof.
  unfold caller_accepts. intros H.
  destruct (Str.blank text) eqn:B; [|reflexivity].
  rewrite (trim_blank text B) in H. discriminate.
Qed.

Lemma starts_with_lower (s p : string) :
  Str.starts_with (Str.toLowerCase s) (Str.toLowerCase p)
  = Reference.ci_starts_with s p.
Proof.
  revert s. induction p as [|a p IH]; intros s; [now destruct s|].
  destruct s as [|b s]; simpl; [reflexivity|]. now rewrite IH.
Qed.

Lemma includes_lower (s p : string) :
  Str.includes (Str.toLowerCase s) (Str.toLowerCase p) = Reference.ci_contains s p.
Proof.
  induction s as [|b s IH].
  - pose proof (starts_with_lower "" p) as H. simpl in *. now rewrite H.
  - change (Str.toLowerCase (String b s))
      with (String (Str.lower_char b) (Str.toLowerCase s)).
    change (Str.includes (String (Str.lower_char b) (Str.toLowerCase s))
              (Str.toLowerCase p))
      with (Str.starts_with (String (Str.lower_char b) (Str.toLowerCase s))
              (Str.toLowerCase p)
            || Str.includes (Str.toLowerCase s) (Str.toLowerCase p)).
    rewrite IH.
    change (String (Str.lower_char b) (Str.toLowerCase s))
      with (Str.toLowerCase (String b s)).
    now rewrite starts_with_lower.
Qed.

Lemma toLowerCase_app (a b : string) :
  Str.toLowerCase (a ++ b) = Str.toLowerCase a ++ Str.toLowerCase b.
Proof. induction a as [|c a IH]; simpl; [reflexivity | now rewrite IH]. Qed.

(** [ci_starts_with s p]: [s] begins with a string equal to [p] up to
    letter case. *)
Lemma ci_starts_with_spec (s p : string) :
  Reference.ci_starts_with s p = true <->
  exists mid post, s = mid ++ post /\ Str.toLowerCase mid = Str.toLowerCase p.
Proof.
  revert s. induction p as [|a p IH]; intros s.
  - split; [intros _ | now destruct s]. exists "", s. split; reflexivity.
  - destruct s as [|b s]; simpl.
    + split; [discriminate|]. intros (mid & post & E & L).
      destruct mid; simpl in *; discriminate.
    + rewrite andb_true_iff, Ascii.eqb_eq, IH. split.
      * intros (Ec & mid & post & -> & L). exists (String b mid), post.
        split; [reflexivity|]. simpl. now rewrite L, Ec.
      * intros (mid & post & E & L). destruct mid as [|m mid]; [discriminate|].
        simpl in E, L. injection E as -> ->. injection L as Ec L.
        split; [now rewrite Ec|]. exists mid, post. split; [reflexivity | exact L].
Qed.

(** [ci_contains s p]: some substring of [s] equals [p] up to letter case. *)
Lemma ci_contains_spec (s p : string) :
  Reference.ci_contains s p = true <->
  exists pre mid post,
    s = pre ++ mid ++ post /\ Str.toLowerCase mid = Str.toLowerCase p.
Proof.
  induction s as [|b s IH].
  - change (Reference.ci_contains "" p)
      with (Reference.ci_starts_with "" p || false).
    rewrite orb_false_r, ci_starts_with_spec. split.
    + intros (mid & post & E & L). exists "", mid, post. split; assumption.
    + intros (pre & mid & post & E & L). exists mid, post.
      destruct pre; [split; assumption | discriminate].
  - change (Reference.ci_contains (String b s) p)
      with (Reference.ci_starts_with (String b s) p || Reference.ci_contains s p).
    rewrite orb_true_iff, IH, ci_starts_with_spec. split.
    + intros [(mid & post & E & L) | (pre & mid & post & E & L)].
      * exists "", mid, post. split; assumption.
      * exists (String b pre), mid, post. split; [now rewrite E | exact L].
    + intros (pre & mid & post & E & L). destruct pre as [|c pre].
      * left. exists mid, post. split; assumption.
      * right. simpl in E. injection E as -> E.
        exists pre, mid, post. split; assumption.
Qed.

Lemma ci_contains_empty (s : string) : Reference.ci_contains s "" = true.
Proof. destruct s; reflexivity. Qed.

Lemma truthy_false (s : string) : Str.truthy s = false -> s = "".
Proof. destruct s; [reflexivity | discriminate]. Qed.

(** ** Sorting by completion flag *)

Section StablePartition.
Let done := fun t : Task => completed t.
Let todo := fun t : Task => negb (completed t).

Lemma insert_completedFirst_done (x : Task) (l : list Task) :
  completed x = true -> Arr.insert_sorted cmp_completedFirst x l = x :: l.
Proof.
  intros Hx. destruct l as [|y r]; [reflexivity|]. simpl.
  unfold cmp_completedFirst. rewrite Hx. simpl.
  now destruct (completed y).
Qed.

Lemma insert_completedFirst_todo (x : Task) (l1 l2 : list Task) :
  completed x = false ->
  Forall (fun t => completed t = true) l1 ->
  Forall (fun t => completed t = false) l2 ->
  Arr.insert_sorted cmp_completedFirst x (l1 ++ l2)%list = (l1 ++ x :: l2)%list.
Proof.
  intros Hx H1 H2. induction H1 as [|y r Hy Hr IH]; simpl.
  - destruct H2 as [|y r Hy Hr]; [reflexivity|]. simpl.
    unfold cmp_completedFirst. now rewrite Hx, Hy.
  - unfold cmp_completedFirst at 1. rewrite Hx, Hy. simpl. now rewrite IH.
Qed.

Lemma insert_pendingFirst_todo (x : Task) (l : list Task) :
  completed x = false -> Arr.insert_sorted cmp_pendingFirst x l = x :: l.
Proof.
  intros Hx. destruct l as [|y r]; [reflexivity|]. simpl.
  unfold cmp_pendingFirst. rewrite Hx. simpl.
  now destruct (completed y).
Qed.

Lemma insert_pendingFirst_done (x : Task) (l1 l2 : list Task) :
  completed x = true ->
  Forall (fun t => completed t = false) l1 ->
  Forall (fun t => completed t = true) l2 ->
  Arr.insert_sorted cmp_pendingFirst x (l1 ++ l2)%list = (l1 ++ x :: l2)%list.
Proof.
  intros Hx H1 H2. induction H1 as [|y r Hy Hr IH]; simpl.
  - destruct H2 as [|y r Hy Hr]; [reflexivity|]. simpl.
    unfold cmp_pendingFirst. now rewrite Hx, Hy.
  - unfold cmp_pendingFirst at 1. rewrite Hx, Hy. simpl. now rewrite IH.
Qed.

Lemma filter_done_all (l : list Task) :
  Forall (fun t => completed t = true) (filter done l).
Proof. apply Forall_forall. intros t Ht. now apply filter_In in Ht. Qed.

Lemma filter_todo_all (l : list Task) :
  Forall (fun t => completed t = false) (filter todo l).
Proof.
  apply Forall_forall. intros t Ht. apply filter_In in Ht as [_ Ht].
  unfold todo in Ht. now destruct (completed t).
Qed.

Lemma sort_completedFirst (l : list Task) :
  Arr.sort cmp_completedFirst l = (filter done l ++ filter todo l)%list.
Proof.
  induction l as [|x r IH]; [reflexivity|]. simpl. rewrite IH.
  unfold done at 2, todo at 2. destruct (completed x) eqn:Hx; simpl.
  - now apply insert_completedFirst_done.
  - apply insert_completedFirst_todo;
      [exact Hx | apply filter_done_all | apply filter_todo_all].
Qed.

Lemma sort_pendingFirst (l : list Task) :
  Arr.sort cmp_pendingFirst l = (filter todo l ++ filter done l)%list.
Proof.
  induction l as [|x r IH]; [reflexivity|]. simpl. rewrite IH.
  unfold done at 2, todo at 2. destruct (completed x) eqn:Hx; simpl.
  - apply insert_pendingFirst_done;
      [exact Hx | apply filter_todo_all | apply filter_done_all].
  - now apply insert_pendingFirst_todo.
Qed.
End StablePartition.

Lemma allTasks_reference (s : Store) : allTasks s = Reference.allTasks s.
Proof.
  unfold allTasks, Reference.allTasks, Reference.reorder, Reference.keep.
  assert (E : (if Str.truthy (searchTerm s)
               then filter (fun task =>
                      Str.includes (Str.toLowerCase (description task))
                                   (Str.toLowerCase (searchTerm s))) (tasks s)
               else tasks s)
              = filter (fun t => Reference.ci_contains (description t) (searchTerm s))
                  (tasks s)).
  { destruct (Str.truthy (searchTerm s)) eqn:T.
    - apply filter_ext. intros t. apply includes_lower.
    - rewrite (truthy_false _ T). symmetry. apply filter_all.
      intros t _. apply ci_contains_empty. }
  cbv zeta. rewrite E.
  destruct (String.eqb (sortCriteria s) "completedFirst");
    [apply sort_completedFirst|].
  destruct (String.eqb (sortCriteria s) "pendingFirst");
    [apply sort_pendingFirst | reflexivity].
Qed.

(** ** The actions on the collection *)

Lemma filter_done_done (l : list Task) :
  filter (fun t => completed t) (filter (fun t => completed t) l)
  = filter (fun t => completed t) l.
Proof.
  apply filter_all. intros t Ht. now apply filter_In in Ht.
Qed.

Lemma filter_todo_todo (l : list Task) :
  filter (fun t => negb (completed t)) (filter (fun t => negb (completed t)) l)
  = filter (fun t => negb (completed t)) l.
Proof.
  apply filter_all. intros t Ht. now apply filter_In in Ht.
Qed.

Lemma filter_done_todo (l : list Task) :
  filter (fun t => completed t) (filter (fun t => negb (completed t)) l) = [].
Proof.
  induction l as [|x r IH]; [reflexivity|]. simpl.
  destruct (completed x) eqn:E; simpl; [exact IH | now rewrite E].
Qed.

Lemma filter_todo_done (l : list Task) :
  filter (fun t => negb (completed t)) (filter (fun t => completed t) l) = [].
Proof.
  induction l as [|x r IH]; [reflexivity|]. simpl.
  destruct (completed x) eqn:E; simpl; [now rewrite E | exact IH].
Qed.

Lemma filter_done_reorder (c : string) (l : list Task) :
  filter (fun t => completed t) (Reference.reorder c l)
  = filter (fun t => completed t) l.
Proof.
  unfold Reference.reorder.
  destruct (String.eqb c "completedFirst");
    [|destruct (String.eqb c "pendingFirst"); [|reflexivity]];
    rewrite filter_app, filter_done_done, filter_done_todo;
    [apply app_nil_r | reflexivity].
Qed.

Lemma filter_todo_reorder (c : string) (l : list Task) :
  filter (fun t => negb (completed t)) (Reference.reorder c l)
  = filter (fun t => negb (completed t)) l.
Proof.
  unfold Reference.reorder.
  destruct (String.eqb c "completedFirst");
    [|destruct (String.eqb c "pendingFirst"); [|reflexivity]];
    rewrite filter_app, filter_todo_todo, filter_todo_done;
    [reflexivity | apply app_nil_r].
Qed.

Lemma unique_ids_toggle (i : Z) (s : Store) :
  unique_ids (tasks s) -> unique_ids (tasks (after (toggleTaskCompletion i) s)).
Proof.
  unfold unique_ids, after, toggleTaskCompletion. intros H.
  destruct (Arr.find _ (tasks s)); simpl; [|exact H].
  now rewrite update_found_map.
Qed.

Lemma unique_ids_step (o : Op) (s : Store) :
  safe_ids 1 (tasks s) ->
  unique_ids (tasks s) -> unique_ids (tasks (after (action_of o) s)).
Proof.
  intros S H. destruct o as [d | i | i | i d | t | c | b |];
    try (now apply unique_ids_toggle); unfold unique_ids, after in *; simpl.
  - rewrite map_app. simpl. apply NoDup_app; [exact H | | ].
    + constructor; [intros [] | constructor].
    + intros x Hx [<- | []]. exact (next_id_fresh _ S Hx).
  - now apply NoDup_map_filter.
  - unfold updateTaskDescription.
    destruct (Arr.find _ (tasks s)); simpl; [|exact H].
    now rewrite update_found_map.
  - exact H.
  - exact H.
  - rewrite map_map. simpl. now rewrite map_ext with (g := id).
  - now apply NoDup_map_filter.
Qed.

(** An operation uses up at most one unit of room. *)
Lemma safe_ids_step (k : nat) (o : Op) (s : Store) :
  safe_ids (S k) (tasks s) -> safe_ids k (tasks (after (action_of o) s)).
Proof.
  intros S1. pose proof (safe_ids_less _ _ S1) as [K S].
  split; [exact K|]. unfold after.
  destruct o as [d | i | i | i d | t | c | b |]; simpl.
  - apply Forall_app. split; [exact S|]. constructor; [|constructor]. simpl.
    apply next_id_room. exact S1.
  - apply Forall_forall. intros t Ht. apply filter_In in Ht as [Ht _].
    rewrite Forall_forall in S. now apply S.
  - unfold toggleTaskCompletion.
    destruct (Arr.find _ (tasks s)); simpl; [|exact S].
    revert S. generalize (tasks s). intros l S.
    induction S as [|x r Hx Hr IH]; simpl; [constructor|].
    destruct (id x =? i); constructor; auto.
  - unfold updateTaskDescription.
    destruct (Arr.find _ (tasks s)); simpl; [|exact S].
    revert S. generalize (tasks s). intros l S.
    induction S as [|x r Hx Hr IH]; simpl; [constructor|].
    destruct (id x =? i); constructor; auto.
  - exact S.
  - exact S.
  - apply Forall_forall. intros t Ht. apply in_map_iff in Ht as (u & <- & Hu).
    rewrite Forall_forall in S. simpl. now apply S.
  - apply Forall_forall. intros t Ht. apply filter_In in Ht as [Ht _].
    rewrite Forall_forall in S. now apply S.
Qed.

Lemma unique_ids_steps (ops : list Op) (s : Store) :
  safe_ids (List.length ops) (tasks s) ->
  unique_ids (tasks s) -> unique_ids (tasks (apply_ops ops s)).
Proof.
  revert s. induction ops as [|o ops IH]; intros s S H; [exact H|].
  simpl in S. apply IH.
  - now apply safe_ids_step.
  - apply unique_ids_step; [now apply (safe_ids_one (List.length ops)) | exact H].
Qed.

Lemma no_blank_step (o : Op) (s : Store) :
  caller_validated o = true ->
  no_blank_description (tasks s) ->
  no_blank_description (tasks (after (action_of o) s)).
Proof.
  unfold no_blank_description, after. intros V H.
  destruct o as [d | i | i | i d | t | c | b |]; simpl in *.
  - apply Forall_app. split; [exact H|].
    constructor; [|constructor]. simpl. now apply caller_accepts_not_blank.
  - apply Forall_forall. intros t Ht. apply filter_In in Ht as [Ht _].
    rewrite Forall_forall in H. now apply H.
  - unfold toggleTaskCompletion.
    destruct (Arr.find _ (tasks s)); simpl; [|exact H].
    revert H. generalize (tasks s). intros l H.
    induction H as [|x r Hx Hr IH]; simpl; [constructor|].
    destruct (id x =? i); constructor; auto.
  - unfold updateTaskDescription.
    destruct (Arr.find _ (tasks s)); simpl; [|exact H].
    revert H. generalize (tasks s). intros l H.
    induction H as [|x r Hx Hr IH]; simpl; [constructor|].
    destruct (id x =? i); constructor; auto.
    simpl. rewrite blank_trim. now apply caller_accepts_not_blank.
  - exact H.
  - exact H.
  - apply Forall_forall. intros t Ht. apply in_map_iff in Ht as (u & <- & Hu).
    rewrite Forall_forall in H. simpl. now apply H.
  - apply Forall_forall. intros t Ht. apply filter_In in Ht as [Ht _].
    rewrite Forall_forall in H. now apply H.
Qed.

Lemma no_blank_steps (ops : list Op) (s : Store) :
  forallb caller_validated ops = true ->
  no_blank_description (tasks s) ->
  no_blank_description (tasks (apply_ops ops s)).
Proof.
  revert s. induction ops as [|o ops IH]; intros s V H; [exact H|].
  simpl in V. apply andb_true_iff in V as [Vo V].
  apply IH; [exact V | now apply no_blank_step].
Qed.

Lemma Page_eta (p : Page) : mkPage (store p) (slot p) (setItem_calls p) = p.
Proof. destruct p; reflexivity. Qed.

(** ** JSON round trip *)

Lemma append_assoc (a b c : string) : (a ++ b) ++ c = a ++ (b ++ c).
Proof. induction a as [|x a IH]; simpl; [reflexivity | now rewrite IH]. Qed.

Lemma length_append (a b : string) :
  String.length (a ++ b) = (String.length a + String.length b)%nat.
Proof. induction a as [|x a IH]; simpl; [reflexivity | now rewrite IH]. Qed.

Lemma append_assoc_nil (a : string) : a ++ "" = a.
Proof. induction a as [|x a IH]; simpl; [reflexivity | now rewrite IH]. Qed.

(** Case analysis over the 256 code units. *)
Ltac each_char c := destruct c as [[] [] [] [] [] [] [] []].

(** *** Numbers *)

Lemma digit_char_is_digit (d : N) :
  (d < 10)%N -> JSON.is_digit (JSON.digit_char d) = true.
Proof.
  intros H. unfold JSON.is_digit, JSON.digit_char, Str.code.
  rewrite N_ascii_embedding by lia.
  apply andb_true_iff. split; apply N.leb_le; lia.
Qed.

Lemma digit_val_char (d : N) :
  (d < 10)%N -> JSON.digit_val (JSON.digit_char d) = d.
Proof.
  intros H. unfold JSON.digit_val, JSON.digit_char, Str.code.
  rewrite N_ascii_embedding by lia. lia.
Qed.

Lemma digit_char_nonzero (d : N) :
  (0 < d < 10)%N -> Ascii.eqb (JSON.digit_char d) "0" = false.
Proof.
  intros H. apply Ascii.eqb_neq. intros E.
  apply (f_equal N_of_ascii) in E. unfold JSON.digit_char in E.
  rewrite N_ascii_embedding in E by lia.
  change (N_of_ascii "0") with 48%N in E. lia.
Qed.

Lemma digits_acc_append (f : nat) (n : N) (k rest : string) :
  JSON.digits_acc f n k ++ rest = JSON.digits_acc f n (k ++ rest).
Proof.
  revert n k. induction f as [|f IH]; intros n k; simpl; [reflexivity|].
  destruct (n <? 10)%N; [reflexivity|]. now rewrite IH.
Qed.

Lemma read_digits_digit (acc d : N) (r : string) :
  (d < 10)%N ->
  JSON.read_digits acc (String (JSON.digit_char d) r)
  = JSON.read_digits (10 * acc + d) r.
Proof.
  intros H.
  change (JSON.read_digits acc (String (JSON.digit_char d) r))
    with (if JSON.is_digit (JSON.digit_char d)
          then JSON.read_digits (10 * acc + JSON.digit_val (JSON.digit_char d)) r
          else (acc, String (JSON.digit_char d) r)).
  now rewrite digit_char_is_digit, digit_val_char.
Qed.

Lemma read_digits_acc (f : nat) (n : N) (k : string) :
  (n < 10 ^ N.of_nat f)%N ->
  JSON.read_digits 0 (JSON.digits_acc f n k) = JSON.read_digits n k.
Proof.
  revert n k. induction f as [|f IH]; intros n k H.
  - simpl in H. assert (n = 0%N) by lia. now subst.
  - rewrite Nat2N.inj_succ, N.pow_succ_r' in H.
    change (JSON.digits_acc (S f) n k)
      with (if (n <? 10)%N then String (JSON.digit_char n) k
            else JSON.digits_acc f (n / 10)
                   (String (JSON.digit_char (n mod 10)) k)).
    destruct (N.ltb_spec n 10) as [L | L].
    + rewrite read_digits_digit by exact L. reflexivity.
    + assert (D : (n mod 10 < 10)%N) by (apply N.mod_lt; lia).
      rewrite IH by (apply N.Div0.div_lt_upper_bound; exact H).
      rewrite read_digits_digit by exact D.
      f_equal. pose proof (N.div_mod n 10). lia.
Qed.

Lemma digits_acc_head (f : nat) (n : N) (k : string) :
  (0 < n < 10 ^ N.of_nat f)%N ->
  exists c r, JSON.digits_acc f n k = String c r
              /\ JSON.is_digit c = true /\ Ascii.eqb c "0" = false.
Proof.
  revert n k. induction f as [|f IH]; intros n k H.
  - simpl in H. lia.
  - rewrite Nat2N.inj_succ, N.pow_succ_r' in H. simpl.
    destruct (N.ltb_spec n 10) as [L | L].
    + exists (JSON.digit_char n), k. split; [reflexivity|].
      split; [apply digit_char_is_digit | apply digit_char_nonzero]; lia.
    + apply IH. split.
      * apply N.div_str_pos. lia.
      * apply N.Div0.div_lt_upper_bound. lia.
Qed.

Lemma fuel_enough (n : N) : (n < 10 ^ N.of_nat (S (N.to_nat (N.log2 n))))%N.
Proof.
  rewrite Nat2N.inj_succ, N2Nat.id.
  destruct (N.eq_dec n 0) as [-> | Hn]; [reflexivity|].
  apply N.lt_le_trans with (2 ^ N.succ (N.log2 n))%N.
  - apply N.log2_spec. lia.
  - apply N.pow_le_mono_l. lia.
Qed.

Lemma read_digits_stop (n : N) (rest : string) :
  JSON.ends_number rest = true -> JSON.read_digits n rest = (n, rest).
Proof.
  destruct rest as [|c r]; [reflexivity|]. simpl.
  destruct (JSON.is_digit c); [discriminate | reflexivity].
Qed.

Lemma read_frac_stop (rest : string) :
  JSON.ends_number rest = true -> JSON.read_frac rest = JSON.Returns (0%N, O, rest).
Proof.
  destruct rest as [|c r]; [reflexivity|]. simpl.
  destruct (JSON.is_digit c); [discriminate|].
  destruct (Ascii.eqb c "."); [discriminate | reflexivity].
Qed.

Lemma read_exp_stop (rest : string) :
  JSON.ends_number rest = true -> JSON.read_exp rest = JSON.Returns (0, rest).
Proof.
  destruct rest as [|c r]; [reflexivity|]. simpl.
  destruct (JSON.is_digit c); [discriminate|].
  destruct (Ascii.eqb c "."); [discriminate|].
  destruct (Ascii.eqb c "e"); [discriminate|].
  destruct (Ascii.eqb c "E"); [discriminate | reflexivity].
Qed.

Lemma read_int_string_of_N (n : N) (rest : string) :
  JSON.ends_number rest = true ->
  JSON.read_int (JSON.string_of_N n ++ rest) = JSON.Returns (n, rest).
Proof.
  intros E. unfold JSON.string_of_N. rewrite digits_acc_append. simpl append.
  destruct (N.eq_dec n 0) as [-> | Hn]; [reflexivity|].
  pose proof (fuel_enough n) as F.
  destruct (digits_acc_head (S (N.to_nat (N.log2 n))) n rest) as (c & r & Hs & Hd & Hz);
    [lia|].
  pose proof (read_digits_acc _ n rest F) as R.
  rewrite Hs in *. unfold JSON.read_int, JSON.read_digits1.
  now rewrite Hz, Hd, R, read_digits_stop.
Qed.

Lemma digit_not_minus (c : ascii) :
  JSON.is_digit c = true -> Ascii.eqb c "-" = false.
Proof. each_char c; try discriminate; reflexivity. Qed.

Lemma string_of_N_head (n : N) (rest : string) :
  exists c r, JSON.string_of_N n ++ rest = String c r /\ JSON.is_digit c = true.
Proof.
  unfold JSON.string_of_N. rewrite digits_acc_append. simpl append.
  destruct (N.eq_dec n 0) as [-> | Hn].
  - exists "0"%char, rest. split; reflexivity.
  - pose proof (fuel_enough n) as F.
    destruct (digits_acc_head (S (N.to_nat (N.log2 n))) n rest)
      as (c & r & Hs & Hd & _); [lia|].
    exists c, r. split; assumption.
Qed.

Lemma parse_unsigned_integer (neg : bool) (n : N) (s rest : string) :
  JSON.read_int s = JSON.Returns (n, rest) ->
  JSON.ends_number rest = true ->
  JSON.parse_unsigned neg s
  = JSON.Returns (JSON.Num (if neg then - Z.of_N n else Z.of_N n), rest).
Proof.
  intros R E. unfold JSON.parse_unsigned. rewrite R. cbn [JSON.bind].
  rewrite (read_frac_stop rest E). cbn [JSON.bind].
  rewrite (read_exp_stop rest E). cbn [JSON.bind].
  cbv zeta. unfold JSON.decimal.
  change (Z.of_nat 0) with 0. change (0 - 0) with 0. change (0 <=? 0) with true.
  cbv iota. change (10 ^ 0) with 1. change (Z.of_N 0) with 0.
  do 3 f_equal. destruct neg; lia.
Qed.

Lemma parse_number_toString (z : Z) (rest : string) :
  JSON.ends_number rest = true ->
  JSON.parse_number (JSON.Number_toString z ++ rest)
  = JSON.Returns (JSON.Num z, rest).
Proof.
  intros E. unfold JSON.Number_toString.
  destruct (Z.ltb_spec z 0) as [L | L].
  - change (String "-" (JSON.string_of_N (Z.to_N (- z))) ++ rest)
      with (String "-" (JSON.string_of_N (Z.to_N (- z)) ++ rest)).
    unfold JSON.parse_number. change (Ascii.eqb "-" "-") with true. cbv iota.
    rewrite (parse_unsigned_integer true (Z.to_N (- z)) _ rest
               (read_int_string_of_N _ rest E) E).
    do 3 f_equal. rewrite Z2N.id; lia.
  - destruct (string_of_N_head (Z.to_N z) rest) as (c & r & Hs & Hd).
    pose proof (read_int_string_of_N (Z.to_N z) rest E) as R.
    rewrite Hs in *. unfold JSON.parse_number.
    rewrite (digit_not_minus c Hd).
    rewrite (parse_unsigned_integer false (Z.to_N z) _ rest R E).
    do 3 f_equal. rewrite Z2N.id; lia.
Qed.

Lemma Number_toString_head (z : Z) (rest : string) :
  exists c r, JSON.Number_toString z ++ rest = String c r
              /\ (Ascii.eqb c "-" || JSON.is_digit c) = true.
Proof.
  unfold JSON.Number_toString. destruct (z <? 0).
  - eexists _, _. split; reflexivity.
  - destruct (string_of_N_head (Z.to_N z) rest) as (c & r & Hs & Hd).
    exists c, r. split; [exact Hs|]. rewrite Hd. apply orb_true_r.
Qed.

Lemma parse_value_number_head (f : nat) (c : ascii) (r : string) :
  (Ascii.eqb c "-" || JSON.is_digit c) = true ->
  JSON.parse_value (S f) (String c r) = JSON.parse_number (String c r).
Proof. each_char c; try discriminate; intros _; reflexivity. Qed.

Lemma parse_value_number (f : nat) (z : Z) (rest : string) :
  JSON.ends_number rest = true ->
  JSON.parse_value (S f) (JSON.Number_toString z ++ rest)
  = JSON.Returns (JSON.Num z, rest).
Proof.
  intros E. destruct (Number_toString_head z rest) as (c & r & Hs & Hc).
  rewrite <- (parse_number_toString z rest E), Hs.
  now apply parse_value_number_head.
Qed.

(** *** Strings *)

Lemma parse_chars_quote_char (c : ascii) (tail str rest : string) :
  JSON.parse_chars tail = JSON.Returns (str, rest) ->
  JSON.parse_chars (JSON.quote_char c ++ tail) = JSON.Returns (String c str, rest).
Proof.
  intros H. each_char c; cbn; rewrite H; reflexivity.
Qed.

Lemma parse_chars_quote_chars (s rest : string) :
  JSON.parse_chars (JSON.quote_chars s ++ String JSON.dquote rest)
  = JSON.Returns (s, rest).
Proof.
  induction s as [|c s IH]; [reflexivity|].
  simpl JSON.quote_chars. rewrite append_assoc.
  now apply parse_chars_quote_char.
Qed.

Lemma parse_value_quote (f : nat) (s rest : string) :
  JSON.parse_value (S f) (JSON.quote s ++ rest) = JSON.Returns (JSON.Str s, rest).
Proof.
  unfold JSON.quote.
  change (String JSON.dquote (JSON.quote_chars s ++ String JSON.dquote "") ++ rest)
    with (String JSON.dquote ((JSON.quote_chars s ++ String JSON.dquote "") ++ rest)).
  rewrite append_assoc.
  change (String JSON.dquote "" ++ rest) with (String JSON.dquote rest).
  change (JSON.parse_value (S f)
            (String JSON.dquote (JSON.quote_chars s ++ String JSON.dquote rest)))
    with (JSON.bind
            (JSON.parse_chars (JSON.quote_chars s ++ String JSON.dquote rest))
            (fun '(str, rest) => JSON.Returns (JSON.Str str, rest))).
  now rewrite parse_chars_quote_chars.
Qed.

Lemma parse_value_bool (f : nat) (b : bool) (rest : string) :
  JSON.parse_value (S f) (JSON.stringify_bool b ++ rest)
  = JSON.Returns (JSON.Bool b, rest).
Proof. destruct b; reflexivity. Qed.

(** *** Containers *)

Section ContainerSteps.
Variable pv : string -> JSON.outcome (JSON.value * string).

Lemma parse_members_more (n : nat) (key body : string) (v : JSON.value) (r : string) :
  pv body = JSON.Returns (v, String "," r) ->
  JSON.parse_members pv (S n) (JSON.quote key ++ String ":" body)
  = JSON.bind (JSON.parse_members pv n r)
      (fun '(ms, rest) => JSON.Returns ((key, v) :: ms, rest)).
Proof.
  intros H. unfold JSON.quote.
  change (String JSON.dquote (JSON.quote_chars key ++ String JSON.dquote "")
            ++ String ":" body)
    with (String JSON.dquote
            ((JSON.quote_chars key ++ String JSON.dquote "") ++ String ":" body)).
  rewrite append_assoc.
  change (String JSON.dquote "" ++ String ":" body)
    with (String JSON.dquote (String ":" body)).
  cbn [JSON.parse_members JSON.skip_ws].
  change (JSON.is_ws JSON.dquote) with false.
  change (Ascii.eqb JSON.dquote JSON.dquote) with true. cbv iota.
  rewrite parse_chars_quote_chars. cbn [JSON.bind JSON.skip_ws].
  change (JSON.is_ws ":") with false. change (Ascii.eqb ":" ":") with true.
  cbv iota. rewrite H. cbn [JSON.bind JSON.skip_ws].
  change (JSON.is_ws ",") with false. change (Ascii.eqb "," ",") with true.
  reflexivity.
Qed.

Lemma parse_members_last (n : nat) (key body : string) (v : JSON.value) (r : string) :
  pv body = JSON.Returns (v, String "}" r) ->
  JSON.parse_members pv (S n) (JSON.quote key ++ String ":" body)
  = JSON.Returns ([(key, v)], r).
Proof.
  intros H. unfold JSON.quote.
  change (String JSON.dquote (JSON.quote_chars key ++ String JSON.dquote "")
            ++ String ":" body)
    with (String JSON.dquote
            ((JSON.quote_chars key ++ String JSON.dquote "") ++ String ":" body)).
  rewrite append_assoc.
  change (String JSON.dquote "" ++ String ":" body)
    with (String JSON.dquote (String ":" body)).
  cbn [JSON.parse_members JSON.skip_ws].
  change (JSON.is_ws JSON.dquote) with false.
  change (Ascii.eqb JSON.dquote JSON.dquote) with true. cbv iota.
  rewrite parse_chars_quote_chars. cbn [JSON.bind JSON.skip_ws].
  change (JSON.is_ws ":") with false. change (Ascii.eqb ":" ":") with true.
  cbv iota. rewrite H. cbn [JSON.bind JSON.skip_ws].
  change (JSON.is_ws "}") with false. change (Ascii.eqb "}" ",") with false.
  change (Ascii.eqb "}" "}") with true.
  reflexivity.
Qed.

Lemma parse_elements_more (n : nat) (s : string) (v : JSON.value) (r : string) :
  pv s = JSON.Returns (v, String "," r) ->
  JSON.parse_elements pv (S n) s
  = JSON.bind (JSON.parse_elements pv n r)
      (fun '(vs, rest) => JSON.Returns (v :: vs, rest)).
Proof.
  intros H. cbn [JSON.parse_elements]. rewrite H. cbn [JSON.bind JSON.skip_ws].
  change (JSON.is_ws ",") with false. change (Ascii.eqb "," ",") with true.
  reflexivity.
Qed.

Lemma parse_elements_last (n : nat) (s : string) (v : JSON.value) (r : string) :
  pv s = JSON.Returns (v, String "]" r) ->
  JSON.parse_elements pv (S n) s = JSON.Returns ([v], r).
Proof.
  intros H. cbn [JSON.parse_elements]. rewrite H. cbn [JSON.bind JSON.skip_ws].
  change (JSON.is_ws "]") with false. change (Ascii.eqb "]" ",") with false.
  change (Ascii.eqb "]" "]") with true.
  reflexivity.
Qed.
End ContainerSteps.

Lemma stringify_task_shape (t : Task) (rest : string) :
  JSON.stringify_task t ++ rest
  = String "{"
      (JSON.quote "id" ++ String ":"
         (JSON.Number_toString (id t) ++ String ","
            (JSON.quote "description" ++ String ":"
               (JSON.quote (description t) ++ String ","
                  (JSON.quote "completed" ++ String ":"
                     (JSON.stringify_bool (completed t) ++ String "}" rest)))))).
Proof.
  unfold JSON.stringify_task. repeat rewrite append_assoc. reflexivity.
Qed.

Lemma parse_value_task (f : nat) (t : Task) (rest : string) :
  (4 <= f)%nat ->
  JSON.parse_value f (JSON.stringify_task t ++ rest)
  = JSON.Returns (JSON.of_task t, rest).
Proof.
  intros Hf. destruct f as [|[|[|[|f]]]]; try lia.
  rewrite stringify_task_shape.
  change (JSON.parse_value (S (S (S (S f)))) (String "{" (JSON.quote "id" ++ ?x)))
    with (JSON.bind
            (JSON.parse_members (JSON.parse_value (S (S (S f)))) (S (S (S f)))
               (JSON.quote "id" ++ x))
            (fun '(ms, rest) => JSON.Returns (JSON.Obj (JSON.obj_of_members ms), rest))).
  rewrite (parse_members_more _ _ "id" _ (JSON.Num (id t))
             (JSON.quote "description" ++ String ":"
                (JSON.quote (description t) ++ String ","
                   (JSON.quote "completed" ++ String ":"
                      (JSON.stringify_bool (completed t) ++ String "}" rest)))))
    by (apply parse_value_number; reflexivity).
  rewrite (parse_members_more _ _ "description" _ (JSON.Str (description t))
             (JSON.quote "completed" ++ String ":"
                (JSON.stringify_bool (completed t) ++ String "}" rest)))
    by apply parse_value_quote.
  rewrite (parse_members_last _ _ "completed" _ (JSON.Bool (completed t)) rest)
    by apply parse_value_bool.
  reflexivity.
Qed.

Lemma parse_elements_tasks (f n : nat) (t : Task) (ts : list Task) (rest : string) :
  (4 <= f)%nat -> (List.length ts < n)%nat ->
  JSON.parse_elements (JSON.parse_value f) n
    (JSON.join_tasks (t :: ts) ++ String "]" rest)
  = JSON.Returns (map JSON.of_task (t :: ts), rest).
Proof.
  intros Hf. revert t n. induction ts as [|u ts IH]; intros t n Hn.
  - destruct n as [|n]; [simpl in Hn; lia|].
    apply parse_elements_last. now apply parse_value_task.
  - destruct n as [|n]; [simpl in Hn; lia|].
    change (JSON.join_tasks (t :: u :: ts))
      with (JSON.stringify_task t ++ "," ++ JSON.join_tasks (u :: ts)).
    rewrite !append_assoc.
    change ("," ++ JSON.join_tasks (u :: ts) ++ String "]" rest)
      with (String "," (JSON.join_tasks (u :: ts) ++ String "]" rest)).
    rewrite (parse_elements_more _ n _ (JSON.of_task t) _
               (parse_value_task f t _ Hf)).
    rewrite IH by (simpl in Hn; lia). reflexivity.
Qed.

Lemma length_stringify_task (t : Task) : (4 <= String.length (JSON.stringify_task t))%nat.
Proof.
  rewrite <- (append_assoc_nil (JSON.stringify_task t)).
  rewrite stringify_task_shape. simpl. lia.
Qed.

Lemma join_tasks_cons (t : Task) (ts : list Task) :
  exists tail, JSON.join_tasks (t :: ts) = JSON.stringify_task t ++ tail.
Proof.
  destruct ts as [|u ts].
  - exists "". simpl. now rewrite append_assoc_nil.
  - eexists. reflexivity.
Qed.

Lemma length_join_tasks (t : Task) (ts : list Task) :
  (4 <= String.length (JSON.join_tasks (t :: ts)))%nat
  /\ (List.length (t :: ts) <= String.length (JSON.join_tasks (t :: ts)))%nat.
Proof.
  revert t. induction ts as [|u ts IH]; intros t.
  - pose proof (length_stringify_task t). simpl. lia.
  - change (JSON.join_tasks (t :: u :: ts))
      with (JSON.stringify_task t ++ "," ++ JSON.join_tasks (u :: ts)).
    rewrite !length_append.
    pose proof (length_stringify_task t). destruct (IH u) as [_ H2].
    simpl in *. lia.
Qed.

Lemma parse_value_array (f : nat) (x : string) :
  JSON.parse_value (S f) (String "[" (String "{" x))
  = JSON.bind (JSON.parse_elements (JSON.parse_value f) f (String "{" x))
      (fun '(vs, rest) => JSON.Returns (JSON.Arr vs, rest)).
Proof. reflexivity. Qed.

(** JSON.parse inverts JSON.stringify on task arrays. *)
Lemma parse_stringify (ts : list Task) :
  JSON.parse (JSON.stringify ts) = JSON.Returns (JSON.of_tasks ts).
Proof.
  destruct ts as [|t ts]; [reflexivity|].
  unfold JSON.parse, JSON.stringify, JSON.of_tasks.
  change ("[" ++ JSON.join_tasks (t :: ts) ++ "]")
    with (String "[" (JSON.join_tasks (t :: ts) ++ String "]" "")).
  destruct (length_join_tasks t ts) as [L4 Ln].
  assert (L : String.length (String "[" (JSON.join_tasks (t :: ts) ++ String "]" ""))
              = S (S (String.length (JSON.join_tasks (t :: ts))))).
  { simpl. rewrite length_append. simpl. lia. }
  rewrite L.
  destruct (join_tasks_cons t ts) as [tail Ht].
  assert (Hx : JSON.join_tasks (t :: ts) ++ String "]" ""
               = String "{" (match JSON.join_tasks (t :: ts) ++ String "]" "" with
                             | String _ x => x
                             | EmptyString => ""
                             end)).
  { rewrite Ht, append_assoc, stringify_task_shape. reflexivity. }
  rewrite Hx, parse_value_array, <- Hx.
  rewrite parse_elements_tasks by (simpl in *; lia).
  reflexivity.
Qed.

Lemma as_task_of_task (t : Task) : JSON.as_task (JSON.of_task t) = Some t.
Proof. destruct t; reflexivity. Qed.

Lemma as_tasks_of_tasks (ts : list Task) : JSON.as_tasks (JSON.of_tasks ts) = Some ts.
Proof.
  unfold JSON.of_tasks. simpl.
  induction ts as [|t ts IH]; [reflexivity|].
  simpl map. cbn [JSON.as_task_list]. now rewrite as_task_of_task, IH.
Qed.

Lemma stringify_truthy (ts : list Task) : Str.truthy (JSON.stringify ts) = true.
Proof. reflexivity. Qed.

(** What [load] returns on the text written by [save]. *)
Lemma load_save (ts : list Task) : load (save ts) = JSON.Returns (JSON.of_tasks ts).
Proof.
  unfold load, save. rewrite stringify_truthy. apply parse_stringify.
Qed.

(** *** The recursion bound of the parser is never reached *)

Lemma skip_ws_length (s : string) :
  (String.length (JSON.skip_ws s) <= String.length s)%nat.
Proof.
  induction s as [|c r IH]; simpl; [lia|].
  destruct (JSON.is_ws c); simpl; lia.
Qed.

Lemma skip_ws_cons (s : string) (c : ascii) (r : string) :
  JSON.skip_ws s = String c r -> (S (String.length r) <= String.length s)%nat.
Proof.
  intros H. pose proof (skip_ws_length s) as L. rewrite H in L. exact L.
Qed.

Lemma read_digits_length (acc : N) (s : string) :
  (String.length (snd (JSON.read_digits acc s)) <= String.length s)%nat.
Proof.
  revert acc. induction s as [|c r IH]; intros acc; simpl; [lia|].
  destruct (JSON.is_digit c); simpl; [|lia].
  match goal with |- context [JSON.read_digits ?a r] => specialize (IH a) end.
  lia.
Qed.

Lemma read_digits1_advances (s : string) : JSON.advances s (JSON.read_digits1 s).
Proof.
  destruct s as [|c r]; simpl; [exact I|].
  destruct (JSON.is_digit c) eqn:D; simpl; [|exact I].
  match goal with
  | |- context [JSON.read_digits ?a r] =>
      pose proof (read_digits_length a r) as L;
      destruct (JSON.read_digits a r) as [n rest]
  end.
  simpl in *. lia.
Qed.

Lemma read_int_advances (s : string) : JSON.advances s (JSON.read_int s).
Proof.
  destruct s as [|c r]; [exact I|].
  unfold JSON.read_int. destruct (Ascii.eqb c "0").
  - simpl. lia.
  - apply read_digits1_advances.
Qed.

Lemma read_frac_within (s : string) : JSON.within s (JSON.read_frac s).
Proof.
  destruct s as [|c r]; [simpl; lia|].
  unfold JSON.read_frac. destruct (Ascii.eqb c "."); [|simpl; lia].
  pose proof (read_digits1_advances r) as H.
  destruct (JSON.read_digits1 r) as [[f rest]| | |]; simpl in *; try exact I; lia.
Qed.

Lemma read_exp_within (s : string) : JSON.within s (JSON.read_exp s).
Proof.
  destruct s as [|c r]; [simpl; lia|].
  unfold JSON.read_exp. destruct (Ascii.eqb c "e" || Ascii.eqb c "E"); [|simpl; lia].
  destruct r as [|sg r']; [exact I|].
  destruct (Ascii.eqb sg "-"); [|destruct (Ascii.eqb sg "+")].
  - pose proof (read_digits1_advances r') as H.
    destruct (JSON.read_digits1 r') as [[e rest]| | |]; simpl in *; try exact I; lia.
  - pose proof (read_digits1_advances r') as H.
    destruct (JSON.read_digits1 r') as [[e rest]| | |]; simpl in *; try exact I; lia.
  - pose proof (read_digits1_advances (String sg r')) as H.
    destruct (JSON.read_digits1 (String sg r')) as [[e rest]| | |];
      simpl in *; try exact I; lia.
Qed.

Lemma parse_unsigned_advances (neg : bool) (s : string) :
  JSON.advances s (JSON.parse_unsigned neg s).
Proof.
  unfold JSON.parse_unsigned.
  pose proof (read_int_advances s) as H1.
  destruct (JSON.read_int s) as [[ip s2]| | |]; simpl in *; try exact I; try exact H1.
  pose proof (read_frac_within s2) as H2.
  destruct (JSON.read_frac s2) as [[[fv fd] s3]| | |]; simpl in *;
    try exact I; try exact H2.
  pose proof (read_exp_within s3) as H3.
  destruct (JSON.read_exp s3) as [[ex s4]| | |]; simpl in *;
    try exact I; try exact H3.
  lia.
Qed.

Lemma parse_number_advances (s : string) : JSON.advances s (JSON.parse_number s).
Proof.
  destruct s as [|c r]; [apply parse_unsigned_advances|].
  unfold JSON.parse_number. destruct (Ascii.eqb c "-").
  - pose proof (parse_unsigned_advances true r) as H.
    destruct (JSON.parse_unsigned true r) as [[v rest]| | |];
      simpl in *; try exact I; try exact H. lia.
  - apply parse_unsigned_advances.
Qed.

Lemma advances_cons {A : Type} (c : ascii) (r : string) (o : JSON.outcome (A * string)) :
  JSON.within r o -> JSON.advances (String c r) o.
Proof. destruct o as [[a rest]| | |]; simpl; auto; lia. Qed.

Lemma advances_within {A : Type} (s : string) (o : JSON.outcome (A * string)) :
  JSON.advances s o -> JSON.within s o.
Proof. destruct o as [[a rest]| | |]; simpl; auto; lia. Qed.

Lemma within_bind_ret {A B : Type} (s s' : string) (o : JSON.outcome (A * string))
      (g : A -> B) :
  JSON.within s' o -> (String.length s' <= String.length s)%nat ->
  JSON.within s (JSON.bind o (fun '(a, rest) => JSON.Returns (g a, rest))).
Proof. destruct o as [[a rest]| | |]; simpl; auto; lia. Qed.

Lemma parse_chars_within_upto (n : nat) (s : string) :
  (String.length s <= n)%nat -> JSON.within s (JSON.parse_chars s).
Proof.
  revert s. induction n as [|n IH]; intros s L.
  - destruct s; [exact I | simpl in L; lia].
  - destruct s as [|c r]; [exact I|]. simpl in L.
    cbn [JSON.parse_chars].
    destruct (Ascii.eqb c JSON.dquote); [simpl; lia|].
    destruct (Ascii.eqb c JSON.bslash).
    + destruct r as [|e r1]; [exact I|]. simpl in L.
      destruct (JSON.simple_escape e) as [x|].
      * apply (within_bind_ret _ r1 _ (String x)); [apply IH; lia | simpl; lia].
      * destruct (Ascii.eqb e "u"); [|exact I].
        destruct r1 as [|h1 [|h2 [|h3 [|h4 r2]]]]; try exact I.
        destruct (JSON.hex4 h1 h2 h3 h4) as [k|]; [|exact I].
        destruct (k <? 256)%N; [|exact I]. simpl in L.
        apply (within_bind_ret _ r2 _ (String (ascii_of_N k)));
          [apply IH; lia | simpl; lia].
    + destruct (Str.code c <? 32)%N; [exact I|].
      apply (within_bind_ret _ r _ (String c)); [apply IH; lia | simpl; lia].
Qed.

Lemma parse_chars_within (s : string) : JSON.within s (JSON.parse_chars s).
Proof. apply (parse_chars_within_upto (String.length s)). lia. Qed.

Lemma expect_length (lit s rest : string) :
  JSON.expect lit s = Some rest -> (String.length rest <= String.length s)%nat.
Proof.
  revert s. induction lit as [|a lit IH]; intros s; destruct s as [|b s]; simpl;
    try discriminate.
  - intros [= <-]. simpl. lia.
  - intros [= <-]. simpl. lia.
  - destruct (Ascii.eqb a b); [|discriminate]. intros H. apply IH in H. lia.
Qed.

Section ContainerFuel.
Variable pv : string -> JSON.outcome (JSON.value * string).

Lemma parse_elements_advances (n : nat) (s : string) :
  (forall s', (String.length s' <= String.length s)%nat -> JSON.advances s' (pv s')) ->
  (String.length s < n)%nat ->
  JSON.advances s (JSON.parse_elements pv n s).
Proof.
  revert s. induction n as [|n IH]; intros s Hpv L; [lia|].
  cbn [JSON.parse_elements].
  pose proof (Hpv s (le_n _)) as H1.
  destruct (pv s) as [[v r]| | |]; cbn [JSON.bind]; try exact I; try exact H1.
  simpl in H1.
  destruct (JSON.skip_ws r) as [|c r'] eqn:W; [exact I|].
  apply skip_ws_cons in W.
  destruct (Ascii.eqb c ",").
  - assert (H2 : JSON.advances r' (JSON.parse_elements pv n r')).
    { apply IH; [|lia]. intros s' Hs'. apply Hpv. lia. }
    destruct (JSON.parse_elements pv n r') as [[vs rest]| | |];
      simpl in *; try exact I; try exact H2. lia.
  - destruct (Ascii.eqb c "]"); [simpl; lia | exact I].
Qed.

Lemma parse_members_advances (n : nat) (s : string) :
  (forall s', (String.length s' <= String.length s)%nat -> JSON.advances s' (pv s')) ->
  (String.length s < n)%nat ->
  JSON.advances s (JSON.parse_members pv n s).
Proof.
  revert s. induction n as [|n IH]; intros s Hpv L; [lia|].
  cbn [JSON.parse_members].
  destruct (JSON.skip_ws s) as [|q r] eqn:W0; [exact I|].
  apply skip_ws_cons in W0.
  destruct (Ascii.eqb q JSON.dquote); [|exact I].
  pose proof (parse_chars_within r) as H0.
  destruct (JSON.parse_chars r) as [[key r1]| | |]; cbn [JSON.bind];
    try exact I; try exact H0.
  simpl in H0.
  destruct (JSON.skip_ws r1) as [|c r2] eqn:W1; [exact I|].
  apply skip_ws_cons in W1.
  destruct (Ascii.eqb c ":"); [|exact I].
  assert (H1 : JSON.advances r2 (pv r2)) by (apply Hpv; lia).
  destruct (pv r2) as [[v r3]| | |]; cbn [JSON.bind]; try exact I; try exact H1.
  simpl in H1.
  destruct (JSON.skip_ws r3) as [|c' r4] eqn:W3; [exact I|].
  apply skip_ws_cons in W3.
  destruct (Ascii.eqb c' ",").
  - assert (H2 : JSON.advances r4 (JSON.parse_members pv n r4)).
    { apply IH; [|lia]. intros s' Hs'. apply Hpv. lia. }
    destruct (JSON.parse_members pv n r4) as [[ms rest]| | |];
      simpl in *; try exact I; try exact H2. lia.
  - destruct (Ascii.eqb c' "}"); [simpl; lia | exact I].
Qed.
End ContainerFuel.

Lemma advances_expect (lit : string) (c : ascii) (r s : string) (v : JSON.value) :
  (S (String.length r) <= String.length s)%nat ->
  JSON.advances s
    match JSON.expect lit r with
    | Some rest => JSON.Returns (v, rest)
    | None => JSON.Throws JSON.SyntaxError
    end.
Proof.
  intros L. destruct (JSON.expect lit r) as [rest|] eqn:E; [|exact I].
  apply expect_length in E. simpl. lia.
Qed.

Lemma parse_value_advances (f : nat) (s : string) :
  (String.length s < f)%nat -> JSON.advances s (JSON.parse_value f s).
Proof.
  revert s. induction f as [|f IH]; intros s L; [lia|].
  cbn [JSON.parse_value].
  destruct (JSON.skip_ws s) as [|c r] eqn:W; [exact I|].
  pose proof (skip_ws_cons _ _ _ W) as Lr.
  destruct (Ascii.eqb c "[").
  { destruct (JSON.skip_ws r) as [|c' r'] eqn:W'; [exact I|].
    apply skip_ws_cons in W'.
    destruct (Ascii.eqb c' "]"); [simpl; lia|].
    assert (H : JSON.advances r (JSON.parse_elements (JSON.parse_value f) f r)).
    { apply parse_elements_advances; [|lia]. intros s' Hs'. apply IH. lia. }
    destruct (JSON.parse_elements (JSON.parse_value f) f r) as [[vs rest]| | |];
      simpl in *; try exact I; try exact H. lia. }
  destruct (Ascii.eqb c "{").
  { destruct (JSON.skip_ws r) as [|c' r'] eqn:W'; [exact I|].
    apply skip_ws_cons in W'.
    destruct (Ascii.eqb c' "}"); [simpl; lia|].
    assert (H : JSON.advances r (JSON.parse_members (JSON.parse_value f) f r)).
    { apply parse_members_advances; [|lia]. intros s' Hs'. apply IH. lia. }
    destruct (JSON.parse_members (JSON.parse_value f) f r) as [[ms rest]| | |];
      simpl in *; try exact I; try exact H. lia. }
  destruct (Ascii.eqb c JSON.dquote).
  { pose proof (parse_chars_within r) as H.
    destruct (JSON.parse_chars r) as [[str rest]| | |];
      simpl in *; try exact I; try exact H. lia. }
  destruct (Ascii.eqb c "t"); [now apply advances_expect with (c := c)|].
  destruct (Ascii.eqb c "f"); [now apply advances_expect with (c := c)|].
  destruct (Ascii.eqb c "n"); [now apply advances_expect with (c := c)|].
  destruct (Ascii.eqb c "-" || JSON.is_digit c); [|exact I].
  pose proof (parse_number_advances (String c r)) as H.
  destruct (JSON.parse_number (String c r)) as [[v rest]| | |];
    simpl in *; try exact I; try exact H. lia.
Qed.

(** [JSON.parse] never stops for lack of fuel: its outcome is a value, a
    SyntaxError, or (for wide escapes only) outside the model. *)
Lemma parse_fuel_enough (text : string) : JSON.parse text <> JSON.OutOfFuel.
Proof.
  unfold JSON.parse.
  pose proof (parse_value_advances (S (String.length text)) text (le_n _)) as H.
  destruct (JSON.parse_value (S (String.length text)) text) as [[v rest]| | |];
    simpl in *; try discriminate; [|contradiction].
  destruct (JSON.skip_ws rest); discriminate.
Qed.

Lemma useTaskStore_save (ts : list Task) :
  useTaskStore (save ts) = JSON.Returns (Some (mkStore ts "" "default")).
Proof.
  unfold useTaskStore. rewrite load_save. unfold JSON.bind.
  now rewrite as_tasks_of_tasks.
Qed.

(** * The specification's statements *)

(** ** Scenarios of the specification, section 8 *)

Example filter_then_sort_scenario :
  allTasks (mkStore [mkTask 1 "buy milk" false; mkTask 2 "buy bread" true;
                     mkTask 3 "call mom" false] "buy" "completedFirst")
  = [mkTask 2 "buy bread" true; mkTask 1 "buy milk" false].
Proof. reflexivity. Qed.

Example clear_completed_scenario :
  tasks (after clearCompletedTasks
           (mkStore [mkTask 1 "a" true; mkTask 2 "b" false; mkTask 3 "c" true]
                    "" "default"))
  = [mkTask 2 "b" false].
Proof. reflexivity. Qed.

(** ** Loading *)

(** C1, as stated, fails: unparseable text in the slot makes the
    initialisation throw a SyntaxError, and parseable text of another
    shape is taken as it is, not replaced by the empty collection. *)
Lemma load_malformed_not_recovered :
  load (Some "{") = JSON.Throws JSON.SyntaxError
  /\ useTaskStore (Some "{") = JSON.Throws JSON.SyntaxError
  /\ load (Some "{}") = JSON.Returns (JSON.Obj [])
  /\ load (Some "{}") <> JSON.Returns (JSON.Arr []).
Proof. repeat split; try reflexivity. discriminate. Qed.

(** C1, amended: initialisation yields the empty collection when the
    slot is missing or holds the empty string; a JSON array of tasks as
    written by [save] yields that array; every other non-empty text goes
    to JSON.parse unguarded, whose completion (a value of any shape, or a
    thrown SyntaxError) is the completion of the initialisation. *)
Theorem load_cases (ts : list Task) (c : ascii) (text : string) :
  load None = JSON.Returns (JSON.Arr [])
  /\ load (Some "") = JSON.Returns (JSON.Arr [])
  /\ useTaskStore None = JSON.Returns (Some empty_store)
  /\ useTaskStore (Some "") = JSON.Returns (Some empty_store)
  /\ load (Some (JSON.stringify ts)) = JSON.Returns (JSON.of_tasks ts)
  /\ useTaskStore (Some (JSON.stringify ts))
     = JSON.Returns (Some (mkStore ts "" "default"))
  /\ load (Some (String c text)) = JSON.parse (String c text).
Proof.
  repeat split; try reflexivity.
  - apply (load_save ts).
  - apply (useTaskStore_save ts).
Qed.

(** C9: [save] followed by [load] yields the sequence that was saved:
    the parsed value is the array of the same tasks in the same order,
    and the store created from the slot holds exactly that sequence. *)
Theorem save_load_round_trip (ts : list Task) :
  load (save ts) = JSON.Returns (JSON.of_tasks ts)
  /\ JSON.as_tasks (JSON.of_tasks ts) = Some ts
  /\ useTaskStore (save ts) = JSON.Returns (Some (mkStore ts "" "default")).
Proof.
  split; [apply load_save|]. split; [apply as_tasks_of_tasks|].
  apply useTaskStore_save.
Qed.

(** ** Descriptions *)

(** C2, as stated, fails: [addTask] stores whatever string it is given,
    the empty one included. *)
Lemma addTask_stores_blank_description :
  tasks (apply_ops [AddTask ""] empty_store) = [mkTask 1 "" false]
  /\ ~ no_blank_description (tasks (apply_ops [AddTask ""] empty_store)).
Proof.
  split; [reflexivity|]. intros H. inversion H as [|? ? B _]. discriminate B.
Qed.

(** C2, amended: when every text passed to [addTask] and
    [updateTaskDescription] has passed the callers' check (its trimmed
    form is not empty), no state reachable from the empty collection holds
    an empty or white-space-only description. *)
Theorem no_blank_description_reachable (ops : list Op) :
  forallb caller_validated ops = true ->
  no_blank_description (tasks (apply_ops ops empty_store)).
Proof.
  intros V. apply no_blank_steps; [exact V | constructor].
Qed.

Lemma no_blank_description_reachable_witness :
  forallb caller_validated
    [AddTask "buy milk"; UpdateTaskDescription 1 "  call mom "; AddTask " x";
     ToggleTaskCompletion 2; ClearCompletedTasks] = true
  /\ no_blank_description
       (tasks (apply_ops
                 [AddTask "buy milk"; UpdateTaskDescription 1 "  call mom ";
                  AddTask " x"; ToggleTaskCompletion 2; ClearCompletedTasks]
                 empty_store)).
Proof.
  split; [reflexivity|].
  apply (no_blank_description_reachable
           [AddTask "buy milk"; UpdateTaskDescription 1 "  call mom "; AddTask " x";
            ToggleTaskCompletion 2; ClearCompletedTasks]).
  reflexivity.
Defined.

(** ** Ids *)

(** C3, failing input: on a collection holding the id 2^53 (as loaded
    from a slot written with it), [addTask] does not assign the maximum
    plus one: 2^53 + 1 is no number, the sum is 2^53, and the new task
    carries the id of the task already there. *)
Theorem addTask_at_2_53_assigns_max :
  useTaskStore (Some (JSON.stringify [mkTask (2 ^ 53) "a" false]))
  = JSON.Returns (Some (mkStore [mkTask (2 ^ 53) "a" false] "" "default"))
  /\ next_id [mkTask (2 ^ 53) "a" false] = 2 ^ 53
  /\ next_id [mkTask (2 ^ 53) "a" false] <> 2 ^ 53 + 1
  /\ tasks (after (addTask "b") (mkStore [mkTask (2 ^ 53) "a" false] "" "default"))
     = [mkTask (2 ^ 53) "a" false; mkTask (2 ^ 53) "b" false].
Proof.
  split; [apply useTaskStore_save|].
  split; [reflexivity|]. split; [discriminate | reflexivity].
Qed.

(** C4, failing input: the collection holding only the id 2^53 has
    pairwise distinct ids, and after [addTask] it holds that id twice. *)
Theorem addTask_at_2_53_duplicates_id :
  unique_ids (tasks (mkStore [mkTask (2 ^ 53) "a" false] "" "default"))
  /\ map id (tasks (after (addTask "b")
                      (mkStore [mkTask (2 ^ 53) "a" false] "" "default")))
     = [2 ^ 53; 2 ^ 53]
  /\ ~ unique_ids (tasks (after (addTask "b")
                            (mkStore [mkTask (2 ^ 53) "a" false] "" "default"))).
Proof.
  split; [repeat constructor; intros []|]. split; [reflexivity|].
  intros H. inversion H as [|? ? N _]. apply N. left. reflexivity.
Qed.

(** X28: where every id lies in [-2^53, 2^53), [addTask] appends exactly
    one task, not completed, carrying the given description and the id
    [next_id]: 1 on the empty collection, otherwise one more than an id
    of the collection that none exceeds.  The id is computed from the
    collection at hand: after any removal the next task gets the
    [next_id] of what is left, and removing the task just added makes
    the following [addTask] hand out the same id again. *)
Theorem addTask_appends_max_plus_one (s : Store) (d d' : string) (i : Z) :
  safe_ids 1 (tasks s) ->
  tasks (after (addTask d) s)
  = (tasks s ++ [mkTask (next_id (tasks s)) d false])%list
  /\ searchTerm (after (addTask d) s) = searchTerm s
  /\ sortCriteria (after (addTask d) s) = sortCriteria s
  /\ ((tasks s = [] /\ next_id (tasks s) = 1)
      \/ (Exists (fun t => next_id (tasks s) = id t + 1) (tasks s)
          /\ Forall (fun t => id t < next_id (tasks s)) (tasks s)))
  /\ tasks (after (addTask d') (after (removeTask i) s))
     = (tasks (after (removeTask i) s)
        ++ [mkTask (next_id (tasks (after (removeTask i) s))) d' false])%list
  /\ tasks (after (addTask d')
              (after (removeTask (next_id (tasks s))) (after (addTask d) s)))
     = (tasks s ++ [mkTask (next_id (tasks s)) d' false])%list.
Proof.
  intros S.
  split; [reflexivity|]. split; [reflexivity|]. split; [reflexivity|].
  split; [now apply next_id_spec|]. split; [reflexivity|].
  unfold after. simpl. rewrite filter_app. simpl.
  rewrite Z.eqb_refl. simpl. rewrite app_nil_r.
  now rewrite (remove_absent _ _ (next_id_fresh (tasks s) S)).
Qed.

Lemma addTask_appends_max_plus_one_witness :
  safe_ids 1 (tasks (mkStore [mkTask 3 "a" false; mkTask 7 "b" true] "" "default"))
  /\ tasks (after (addTask "c") (mkStore [mkTask 3 "a" false; mkTask 7 "b" true]
                                         "" "default"))
     = [mkTask 3 "a" false; mkTask 7 "b" true; mkTask 8 "c" false].
Proof.
  assert (S : safe_ids 1 (tasks (mkStore [mkTask 3 "a" false; mkTask 7 "b" true]
                                         "" "default"))).
  { split; [simpl; lia|]. repeat constructor; simpl; lia. }
  split; [exact S|].
  exact (proj1 (addTask_appends_max_plus_one
                  (mkStore [mkTask 3 "a" false; mkTask 7 "b" true] "" "default")
                  "c" "c" 0 S)).
Defined.

(** X29: where there is room for as many new ids as operations follow
    (every id lies in [-2^53, 2^53 - n] for n operations), pairwise
    distinct ids stay pairwise distinct under every mutation operation
    and every sequence of them. *)
Theorem unique_ids_invariant (s : Store) (ops : list Op) :
  unique_ids (tasks s) ->
  safe_ids (List.length ops) (tasks s) ->
  unique_ids (tasks (apply_ops ops s)).
Proof.
  intros H S. now apply unique_ids_steps.
Qed.

Lemma unique_ids_invariant_witness :
  unique_ids (tasks (mkStore [mkTask 1 "a" false; mkTask 5 "b" true] "" "default"))
  /\ safe_ids (List.length [AddTask "c"; RemoveTask 6; AddTask "d"; AddTask "e"])
       (tasks (mkStore [mkTask 1 "a" false; mkTask 5 "b" true] "" "default"))
  /\ unique_ids
       (tasks (apply_ops [AddTask "c"; RemoveTask 6; AddTask "d"; AddTask "e"]
                 (mkStore [mkTask 1 "a" false; mkTask 5 "b" true] "" "default"))).
Proof.
  assert (H : unique_ids
                (tasks (mkStore [mkTask 1 "a" false; mkTask 5 "b" true] "" "default"))).
  { unfold unique_ids. simpl. repeat constructor; simpl; lia. }
  assert (S : safe_ids (List.length [AddTask "c"; RemoveTask 6; AddTask "d"; AddTask "e"])
                (tasks (mkStore [mkTask 1 "a" false; mkTask 5 "b" true] "" "default"))).
  { split; [simpl; lia|]. repeat constructor; simpl; lia. }
  split; [exact H|]. split; [exact S|].
  exact (unique_ids_invariant
           (mkStore [mkTask 1 "a" false; mkTask 5 "b" true] "" "default")
           [AddTask "c"; RemoveTask 6; AddTask "d"; AddTask "e"] H S).
Defined.

(** ** Views *)


(** C6: [completedTasks] and [pendingTasks] are the completed and the
    pending subsequence of [allTasks]; they hold the tasks kept by the
    search, in collection order, not those of the raw collection. *)
Theorem completed_pending_split_allTasks (s : Store) :
  completedTasks s = filter (fun t => completed t) (allTasks s)
  /\ pendingTasks s = filter (fun t => negb (completed t)) (allTasks s)
  /\ completedTasks s
     = filter (fun t => completed t) (Reference.keep (searchTerm s) (tasks s))
  /\ pendingTasks s
     = filter (fun t => negb (completed t)) (Reference.keep (searchTerm s) (tasks s)).
Proof.
  split; [reflexivity|]. split; [reflexivity|].
  unfold completedTasks, pendingTasks. rewrite allTasks_reference.
  unfold Reference.allTasks. split.
  - apply filter_done_reorder.
  - apply filter_todo_reorder.
Qed.

(** ** Bulk completion *)

(** C7: [toggleAllTasksCompletion flag] keeps the length, the ids and
    the descriptions in order, sets every [completed] to [flag], leaves
    the view controls alone, and applying it twice is applying it once. *)
Theorem toggleAllTasksCompletion_spec (s : Store) (flag : bool) :
  List.length (tasks (after (toggleAllTasksCompletion flag) s)) = List.length (tasks s)
  /\ Forall (fun t => completed t = flag)
       (tasks (after (toggleAllTasksCompletion flag) s))
  /\ map id (tasks (after (toggleAllTasksCompletion flag) s)) = map id (tasks s)
  /\ map description (tasks (after (toggleAllTasksCompletion flag) s))
     = map description (tasks s)
  /\ searchTerm (after (toggleAllTasksCompletion flag) s) = searchTerm s
  /\ sortCriteria (after (toggleAllTasksCompletion flag) s) = sortCriteria s
  /\ after (toggleAllTasksCompletion true) (after (toggleAllTasksCompletion true) s)
     = after (toggleAllTasksCompletion true) s
  /\ after (toggleAllTasksCompletion flag) (after (toggleAllTasksCompletion flag) s)
     = after (toggleAllTasksCompletion flag) s.
Proof.
  assert (I : forall b, after (toggleAllTasksCompletion b)
                          (after (toggleAllTasksCompletion b) s)
                        = after (toggleAllTasksCompletion b) s).
  { intros b. unfold after, toggleAllTasksCompletion, with_tasks. simpl.
    now rewrite map_map. }
  unfold after at 1 2 3 4 5 6. simpl.
  split; [apply length_map|].
  split; [apply Forall_forall; intros t Ht;
          apply in_map_iff in Ht as (u & <- & _); reflexivity|].
  split; [rewrite map_map; reflexivity|].
  split; [rewrite map_map; reflexivity|].
  split; [reflexivity|]. split; [reflexivity|].
  split; apply I.
Qed.

(** ** Operations on an absent id *)

(** C8, as stated, fails: on an absent id [toggleTaskCompletion] and
    [updateTaskDescription] write nothing under [tasks], so the watcher
    is not woken and the slot is not written. *)
Lemma toggle_absent_id_writes_nothing :
  setItem_calls
    (dispatch (toggleTaskCompletion 999)
       (mkPage (mkStore [mkTask 1 "a" false] "" "default") None [])) = []
  /\ slot
       (dispatch (toggleTaskCompletion 999)
          (mkPage (mkStore [mkTask 1 "a" false] "" "default") None [])) = None
  /\ setItem_calls
       (dispatch (updateTaskDescription 999 "b")
          (mkPage (mkStore [mkTask 1 "a" false] "" "default") None [])) = [].
Proof. repeat split. Qed.

(** C8, amended: on an id absent from the collection each of the three
    operations leaves the store unchanged; [removeTask] assigns a new
    array of the same tasks and so triggers one write of the unchanged
    collection, while [toggleTaskCompletion] and [updateTaskDescription]
    change nothing at all, the slot and the write history included. *)
Theorem absent_id_is_no_op (p : Page) (i : Z) (text : string) :
  ~ In i (map id (tasks (store p))) ->
  store (dispatch (removeTask i) p) = store p
  /\ slot (dispatch (removeTask i) p) = save (tasks (store p))
  /\ setItem_calls (dispatch (removeTask i) p)
     = JSON.stringify (tasks (store p)) :: setItem_calls p
  /\ dispatch (toggleTaskCompletion i) p = p
  /\ dispatch (updateTaskDescription i text) p = p.
Proof.
  intros H.
  assert (R : removeTask i (store p) = (store p, true)).
  { unfold removeTask. rewrite (remove_absent i _ H). now rewrite with_tasks_same. }
  assert (T : toggleTaskCompletion i (store p) = (store p, false)).
  { unfold toggleTaskCompletion. now rewrite (find_absent i _ H). }
  assert (U : updateTaskDescription i text (store p) = (store p, false)).
  { unfold updateTaskDescription. now rewrite (find_absent i _ H). }
  unfold dispatch. rewrite R, T, U. simpl.
  repeat split; apply Page_eta.
Qed.

Lemma absent_id_is_no_op_witness :
  ~ In 999 (map id (tasks (store
       (mkPage (mkStore [mkTask 1 "a" false; mkTask 2 "b" true] "" "default") None []))))
  /\ setItem_calls
       (dispatch (removeTask 999)
          (mkPage (mkStore [mkTask 1 "a" false; mkTask 2 "b" true] "" "default")
                  None []))
     = [JSON.stringify [mkTask 1 "a" false; mkTask 2 "b" true]].
Proof.
  assert (H : ~ In 999 (map id (tasks (store
       (mkPage (mkStore [mkTask 1 "a" false; mkTask 2 "b" true] "" "default")
               None []))))).
  { simpl. lia. }
  split; [exact H|].
  exact (proj1 (proj2 (proj2
           (absent_id_is_no_op
              (mkPage (mkStore [mkTask 1 "a" false; mkTask 2 "b" true] "" "default")
                      None [])
              999 "" H)))).
Defined.

(** ** Toggling *)

(** C10: toggling the same id twice restores the store: collection,
    search term and sort criterion, whether or not the id is present. *)
Theorem toggleTaskCompletion_involution (s : Store) (i : Z) :
  after (toggleTaskCompletion i) (after (toggleTaskCompletion i) s) = s.
Proof.
  unfold after, toggleTaskCompletion.
  destruct (Arr.find (fun task => id task =? i) (tasks s)) as [t|] eqn:F;
    cbn [fst]; [|now rewrite F].
  cbn [tasks with_tasks].
  rewrite (find_update_found (fun task => id task =? i)
             (fun task => with_completed (negb (completed task)) task)
             (tasks s) t (fun _ => eq_refl) F).
  cbn [fst]. rewrite update_found_twice.
  - unfold with_tasks. simpl. apply Store_eta.
  - reflexivity.
  - intros x. unfold with_completed. simpl. rewrite negb_involutive.
    apply Task_eta.
Qed.

(** * Further properties of the store *)

(** ** Trimming *)

Lemma trimStart_first (s : string) : not_white (first_char (Str.trimStart s)).
Proof.
  induction s as [|c r IH]; simpl; [exact I|].
  destruct (Str.is_white_space c) eqn:W; [exact IH | exact W].
Qed.

Lemma trimStart_split (s : string) :
  exists pre, s = pre ++ Str.trimStart s /\ Str.blank pre = true.
Proof.
  induction s as [|c r (pre & E & B)]; simpl.
  - exists "". split; reflexivity.
  - destruct (Str.is_white_space c) eqn:W.
    + exists (String c pre). split; [simpl; now rewrite <- E | simpl; now rewrite W, B].
    + exists "". split; reflexivity.
Qed.

Lemma trimEnd_cons (c : ascii) (r : string) :
  Str.trimEnd (String c r) = "" \/ exists r', Str.trimEnd (String c r) = String c r'.
Proof.
  simpl. destruct (Str.trimEnd r).
  - destruct (Str.is_white_space c); [now left | right; eexists; reflexivity].
  - right. eexists. reflexivity.
Qed.

Lemma trimEnd_first (s : string) :
  not_white (first_char s) -> not_white (first_char (Str.trimEnd s)).
Proof.
  destruct s as [|c r]; [intros _; exact I|]. intros H.
  destruct (trimEnd_cons c r) as [E | [r' E]]; rewrite E; [exact I | exact H].
Qed.

Lemma trimEnd_last (s : string) : not_white (last_char (Str.trimEnd s)).
Proof.
  induction s as [|c r IH]; simpl; [exact I|].
  destruct (Str.trimEnd r) as [|c' r'] eqn:E.
  - destruct (Str.is_white_space c) eqn:W; simpl; [exact I | exact W].
  - exact IH.
Qed.

Lemma trimEnd_split (s : string) :
  exists post, s = Str.trimEnd s ++ post /\ Str.blank post = true.
Proof.
  induction s as [|c r (post & E & B)]; simpl.
  - exists "". split; reflexivity.
  - destruct (Str.trimEnd r) as [|c' r'] eqn:T.
    + destruct (Str.is_white_space c) eqn:W.
      * exists (String c post). simpl in E. split; [now rewrite <- E|].
        simpl. now rewrite W, B.
      * exists post. simpl in *. split; [now rewrite <- E | exact B].
    + exists post. split; [simpl in *; now rewrite <- E | exact B].
Qed.

Lemma trimStart_fixed (s : string) :
  not_white (first_char s) -> Str.trimStart s = s.
Proof.
  destruct s as [|c r]; [reflexivity|]. simpl. intros H. now rewrite H.
Qed.

Lemma trimEnd_fixed (s : string) :
  not_white (last_char s) -> Str.trimEnd s = s.
Proof.
  induction s as [|c r IH]; [reflexivity|].
  destruct r as [|c' r'].
  - simpl. intros H. now rewrite H.
  - intros H. change (last_char (String c (String c' r')))
      with (last_char (String c' r')) in H.
    specialize (IH H). change (Str.trimEnd (String c (String c' r')))
      with (match Str.trimEnd (String c' r') with
            | EmptyString =>
                if Str.is_white_space c then EmptyString else String c EmptyString
            | r0 => String c r0
            end).
    now rewrite IH.
Qed.

Lemma trim_ends (s : string) :
  not_white (first_char (Str.trim s)) /\ not_white (last_char (Str.trim s)).
Proof.
  unfold Str.trim. split.
  - apply trimEnd_first, trimStart_first.
  - apply trimEnd_last.
Qed.

Lemma trim_idempotent (s : string) : Str.trim (Str.trim s) = Str.trim s.
Proof.
  destruct (trim_ends s) as [F L].
  unfold Str.trim at 1. rewrite (trimStart_fixed _ F). now apply trimEnd_fixed.
Qed.

(** [trim] returns the text between the leading and the trailing white
    space. *)
Lemma trim_spec (s : string) :
  (exists pre post,
      s = pre ++ Str.trim s ++ post
      /\ Str.blank pre = true /\ Str.blank post = true)
  /\ not_white (first_char (Str.trim s))
  /\ not_white (last_char (Str.trim s))
  /\ Str.trim (Str.trim s) = Str.trim s.
Proof.
  split; [|split; [apply trim_ends | split; [apply trim_ends | apply trim_idempotent]]].
  destruct (trimStart_split s) as (pre & E1 & B1).
  destruct (trimEnd_split (Str.trimStart s)) as (post & E2 & B2).
  exists pre, post. unfold Str.trim.
  split; [|split; assumption]. now rewrite <- E2.
Qed.

(** ** Single-task operations on a present id *)

(** The first task carrying an id, with what precedes and follows it. *)
Lemma first_with_id (i : Z) (l : list Task) :
  In i (map id l) ->
  exists l1 t l2,
    l = (l1 ++ t :: l2)%list /\ id t = i /\ ~ In i (map id l1)
    /\ Arr.find (fun task => id task =? i) l = Some t
    /\ forall f, Arr.update_found (fun task => id task =? i) f l
                 = (l1 ++ f t :: l2)%list.
Proof.
  induction l as [|x r IH]; simpl; [intros []|]. intros H.
  destruct (Z.eqb_spec (id x) i) as [E | N].
  - exists [], x, r. repeat split; auto.
  - destruct H as [H | H]; [contradiction|].
    destruct (IH H) as (l1 & t & l2 & -> & Ht & Hn & Hf & Hu).
    exists (x :: l1), t, l2. split; [reflexivity|]. split; [exact Ht|].
    split; [simpl; intros [A | A]; [contradiction | now apply Hn]|].
    split; [exact Hf|]. intros f. simpl. now rewrite Hu.
Qed.

Lemma update_found_idempotent {A : Type} (p : A -> bool) (f : A -> A) (l : list A) :
  (forall x, p (f x) = p x) -> (forall x, f (f x) = f x) ->
  Arr.update_found p f (Arr.update_found p f l) = Arr.update_found p f l.
Proof.
  intros Hp Hf. induction l as [|x r IH]; simpl; [reflexivity|].
  destruct (p x) eqn:E; simpl.
  - now rewrite Hp, E, Hf.
  - now rewrite E, IH.
Qed.

Lemma update_found_fixed {A : Type} (p : A -> bool) (f : A -> A) (l : list A) (x : A) :
  Arr.find p l = Some x -> f x = x -> Arr.update_found p f l = l.
Proof.
  unfold Arr.find. induction l as [|y r IH]; simpl; [discriminate|].
  destruct (p y).
  - intros [= ->] E. now rewrite E.
  - intros F E. now rewrite IH.
Qed.

Lemma toggle_first_with_id (s : Store) (i : Z) :
  In i (map id (tasks s)) ->
  exists l1 t l2,
    tasks s = (l1 ++ t :: l2)%list /\ id t = i /\ ~ In i (map id l1)
    /\ after (toggleTaskCompletion i) s
       = mkStore (l1 ++ mkTask i (description t) (negb (completed t)) :: l2)%list
                 (searchTerm s) (sortCriteria s)
    /\ wakes_watcher (toggleTaskCompletion i) s = true.
Proof.
  intros H. destruct (first_with_id i (tasks s) H) as (l1 & t & l2 & E & Ht & Hn & Hf & Hu).
  exists l1, t, l2. split; [exact E|]. split; [exact Ht|]. split; [exact Hn|].
  unfold after, wakes_watcher, toggleTaskCompletion. rewrite Hf. simpl.
  split; [|reflexivity]. unfold with_tasks. rewrite Hu.
  unfold with_completed. now rewrite Ht.
Qed.

(** X1: on an id of the collection, [toggleTaskCompletion] negates the
    flag of the first task carrying that id and leaves every other task,
    the order and the view controls as they are. *)
Theorem toggleTaskCompletion_present (s : Store) (i : Z) :
  In i (map id (tasks s)) ->
  exists l1 t l2,
    tasks s = (l1 ++ t :: l2)%list /\ id t = i /\ ~ In i (map id l1)
    /\ after (toggleTaskCompletion i) s
       = mkStore (l1 ++ mkTask i (description t) (negb (completed t)) :: l2)%list
                 (searchTerm s) (sortCriteria s)
    /\ wakes_watcher (toggleTaskCompletion i) s = true.
Proof. exact (toggle_first_with_id s i). Qed.

Lemma toggleTaskCompletion_present_witness :
  In 2 (map id (tasks (mkStore [mkTask 1 "a" false; mkTask 2 "b" false] "" "default")))
  /\ exists l1 t l2,
       tasks (mkStore [mkTask 1 "a" false; mkTask 2 "b" false] "" "default")
       = (l1 ++ t :: l2)%list /\ id t = 2 /\ ~ In 2 (map id l1)
       /\ after (toggleTaskCompletion 2)
            (mkStore [mkTask 1 "a" false; mkTask 2 "b" false] "" "default")
          = mkStore (l1 ++ mkTask 2 (description t) (negb (completed t)) :: l2)%list
                    "" "default"
       /\ wakes_watcher (toggleTaskCompletion 2)
            (mkStore [mkTask 1 "a" false; mkTask 2 "b" false] "" "default") = true.
Proof.
  assert (H : In 2 (map id (tasks (mkStore [mkTask 1 "a" false; mkTask 2 "b" false]
                                           "" "default")))).
  { simpl. lia. }
  split; [exact H|].
  exact (toggleTaskCompletion_present
           (mkStore [mkTask 1 "a" false; mkTask 2 "b" false] "" "default") 2 H).
Defined.

(** X2: on an id of the collection, [updateTaskDescription] replaces the
    description of the first task carrying that id by the trimmed text
    and leaves everything else as it is; the stored description is the
    text without its leading and trailing white space. *)
Theorem updateTaskDescription_present (s : Store) (i : Z) (text : string) :
  In i (map id (tasks s)) ->
  exists l1 t l2,
    tasks s = (l1 ++ t :: l2)%list /\ id t = i /\ ~ In i (map id l1)
    /\ after (updateTaskDescription i text) s
       = mkStore (l1 ++ mkTask i (Str.trim text) (completed t) :: l2)%list
                 (searchTerm s) (sortCriteria s)
    /\ (exists pre post,
          text = pre ++ Str.trim text ++ post
          /\ Str.blank pre = true /\ Str.blank post = true)
    /\ not_white (first_char (Str.trim text))
    /\ not_white (last_char (Str.trim text)).
Proof.
  intros H. destruct (first_with_id i (tasks s) H) as (l1 & t & l2 & E & Ht & Hn & Hf & Hu).
  exists l1, t, l2. split; [exact E|]. split; [exact Ht|]. split; [exact Hn|].
  destruct (trim_spec text) as (Hs & H1 & H2 & _).
  split; [|split; [exact Hs | split; assumption]].
  unfold after, updateTaskDescription. rewrite Hf. simpl.
  unfold with_tasks. rewrite Hu. unfold with_description. now rewrite Ht.
Qed.

Lemma updateTaskDescription_present_witness :
  In 1 (map id (tasks (mkStore [mkTask 1 "a" true; mkTask 2 "b" false] "x" "default")))
  /\ exists l1 t l2,
       tasks (mkStore [mkTask 1 "a" true; mkTask 2 "b" false] "x" "default")
       = (l1 ++ t :: l2)%list /\ id t = 1 /\ ~ In 1 (map id l1)
       /\ after (updateTaskDescription 1 "  buy milk ")
            (mkStore [mkTask 1 "a" true; mkTask 2 "b" false] "x" "default")
          = mkStore (l1 ++ mkTask 1 (Str.trim "  buy milk ") (completed t) :: l2)%list
                    "x" "default"
       /\ (exists pre post,
             "  buy milk " = pre ++ Str.trim "  buy milk " ++ post
             /\ Str.blank pre = true /\ Str.blank post = true)
       /\ not_white (first_char (Str.trim "  buy milk "))
       /\ not_white (last_char (Str.trim "  buy milk ")).
Proof.
  assert (H : In 1 (map id (tasks (mkStore [mkTask 1 "a" true; mkTask 2 "b" false]
                                           "x" "default")))).
  { simpl. lia. }
  split; [exact H|].
  exact (updateTaskDescription_present
           (mkStore [mkTask 1 "a" true; mkTask 2 "b" false] "x" "default")
           1 "  buy milk " H).
Defined.

(** X3: saving the same text for the same id a second time changes
    nothing and does not write the slot again: the description is
    already the trimmed text, so no reactive write happens. *)
Theorem updateTaskDescription_twice (s : Store) (i : Z) (text : string) :
  after (updateTaskDescription i text) (after (updateTaskDescription i text) s)
  = after (updateTaskDescription i text) s
  /\ wakes_watcher (updateTaskDescription i text)
       (after (updateTaskDescription i text) s) = false.
Proof.
  unfold after, wakes_watcher, updateTaskDescription.
  destruct (Arr.find (fun task => id task =? i) (tasks s)) as [t|] eqn:F; cbn [fst snd].
  - cbn [tasks with_tasks].
    rewrite (find_update_found (fun task => id task =? i)
               (with_description (Str.trim text)) (tasks s) t (fun _ => eq_refl) F).
    cbn [fst snd]. split.
    + unfold with_tasks. cbn [tasks searchTerm sortCriteria].
      now rewrite update_found_idempotent.
    + simpl. now rewrite String.eqb_refl.
  - rewrite F. split; reflexivity.
Qed.

(** ** Removal *)

Lemma map_id_remove (i : Z) (l : list Task) :
  map id (filter (fun task => negb (id task =? i)) l)
  = List.remove Z.eq_dec i (map id l).
Proof.
  induction l as [|x r IH]; simpl; [reflexivity|].
  destruct (Z.eq_dec i (id x)) as [E | N].
  - rewrite <- E, Z.eqb_refl. simpl. exact IH.
  - destruct (Z.eqb_spec (id x) i) as [E' | _]; [congruence|].
    simpl. now rewrite IH.
Qed.

Lemma length_remove_unique (i : Z) (l : list Z) :
  NoDup l -> In i l -> S (List.length (List.remove Z.eq_dec i l)) = List.length l.
Proof.
  induction l as [|x r IH]; simpl; [intros _ []|].
  intros D H. inversion D as [|? ? Hx Dr]; subst.
  destruct (Z.eq_dec i x) as [E | N].
  - subst x. now rewrite notin_remove.
  - destruct H as [H | H]; [congruence|]. simpl. now rewrite IH.
Qed.

Lemma removeTask_parts (s : Store) (i : Z) :
  ~ In i (map id (tasks (after (removeTask i) s)))
  /\ (forall t, In t (tasks (after (removeTask i) s)) <-> In t (tasks s) /\ id t <> i)
  /\ map id (tasks (after (removeTask i) s)) = List.remove Z.eq_dec i (map id (tasks s))
  /\ after (removeTask i) (after (removeTask i) s) = after (removeTask i) s
  /\ searchTerm (after (removeTask i) s) = searchTerm s
  /\ sortCriteria (after (removeTask i) s) = sortCriteria s.
Proof.
  unfold after. simpl. split.
  - rewrite map_id_remove. apply remove_In.
  - split.
    + intros t. rewrite filter_In, negb_true_iff, Z.eqb_neq. reflexivity.
    + split; [apply map_id_remove|]. split; [|split; reflexivity].
      unfold with_tasks. simpl. f_equal.
      apply filter_all. intros t Ht. now apply filter_In in Ht.
Qed.

(** X4: [removeTask] deletes every task carrying the id and no other:
    the id is gone, a task is in the result exactly when it was in the
    collection under another id, the remaining ids are the former ones
    in the same order, and removing again changes nothing. *)
Theorem removeTask_spec (s : Store) (i : Z) :
  ~ In i (map id (tasks (after (removeTask i) s)))
  /\ (forall t, In t (tasks (after (removeTask i) s)) <-> In t (tasks s) /\ id t <> i)
  /\ map id (tasks (after (removeTask i) s)) = List.remove Z.eq_dec i (map id (tasks s))
  /\ after (removeTask i) (after (removeTask i) s) = after (removeTask i) s
  /\ searchTerm (after (removeTask i) s) = searchTerm s
  /\ sortCriteria (after (removeTask i) s) = sortCriteria s.
Proof. exact (removeTask_parts s i). Qed.

(** X5: when ids are pairwise distinct, removing an id of the collection
    shortens it by exactly one task. *)
Theorem removeTask_one_less (s : Store) (i : Z) :
  unique_ids (tasks s) -> In i (map id (tasks s)) ->
  S (List.length (tasks (after (removeTask i) s))) = List.length (tasks s).
Proof.
  intros D H. rewrite <- (length_map id), <- (length_map id (tasks s)).
  unfold after. simpl. rewrite map_id_remove. now apply length_remove_unique.
Qed.

Lemma removeTask_one_less_witness :
  unique_ids (tasks (mkStore [mkTask 1 "a" false; mkTask 4 "b" true; mkTask 6 "c" false]
                             "" "default"))
  /\ In 4 (map id (tasks (mkStore [mkTask 1 "a" false; mkTask 4 "b" true;
                                   mkTask 6 "c" false] "" "default")))
  /\ S (List.length
          (tasks (after (removeTask 4)
                    (mkStore [mkTask 1 "a" false; mkTask 4 "b" true; mkTask 6 "c" false]
                             "" "default"))))
     = List.length
         (tasks (mkStore [mkTask 1 "a" false; mkTask 4 "b" true; mkTask 6 "c" false]
                         "" "default")).
Proof.
  assert (D : unique_ids
                (tasks (mkStore [mkTask 1 "a" false; mkTask 4 "b" true;
                                 mkTask 6 "c" false] "" "default"))).
  { unfold unique_ids. simpl. repeat constructor; simpl; lia. }
  assert (H : In 4 (map id (tasks (mkStore [mkTask 1 "a" false; mkTask 4 "b" true;
                                            mkTask 6 "c" false] "" "default")))).
  { simpl. lia. }
  split; [exact D|]. split; [exact H|].
  exact (removeTask_one_less
           (mkStore [mkTask 1 "a" false; mkTask 4 "b" true; mkTask 6 "c" false]
                    "" "default") 4 D H).
Defined.

(** X6: where every id lies in [-2^53, 2^53), removing the task that
    [addTask] has just appended gives back the store as it was. *)
Theorem removeTask_undoes_addTask (s : Store) (d : string) :
  safe_ids 1 (tasks s) ->
  after (removeTask (next_id (tasks s))) (after (addTask d) s) = s.
Proof.
  intros S. unfold after. simpl. unfold with_tasks. simpl.
  rewrite filter_app. simpl. rewrite Z.eqb_refl. simpl. rewrite app_nil_r.
  rewrite (remove_absent _ _ (next_id_fresh (tasks s) S)). apply Store_eta.
Qed.

Lemma removeTask_undoes_addTask_witness :
  safe_ids 1 (tasks (mkStore [mkTask 2 "a" false; mkTask 9 "b" true] "x" "default"))
  /\ after (removeTask (next_id [mkTask 2 "a" false; mkTask 9 "b" true]))
       (after (addTask "c") (mkStore [mkTask 2 "a" false; mkTask 9 "b" true] "x" "default"))
     = mkStore [mkTask 2 "a" false; mkTask 9 "b" true] "x" "default".
Proof.
  assert (S : safe_ids 1 (tasks (mkStore [mkTask 2 "a" false; mkTask 9 "b" true]
                                         "x" "default"))).
  { split; [simpl; lia|]. repeat constructor; simpl; lia. }
  split; [exact S|].
  exact (removeTask_undoes_addTask
           (mkStore [mkTask 2 "a" false; mkTask 9 "b" true] "x" "default") "c" S).
Defined.

(** ** Bulk operations *)

(** X7: [clearCompletedTasks] keeps exactly the pending tasks, in
    order: no completed task is left, a task stays exactly when it was
    pending, the completed view becomes empty, and clearing again
    changes nothing. *)
Theorem clearCompletedTasks_spec (s : Store) :
  Forall (fun t => completed t = false) (tasks (after clearCompletedTasks s))
  /\ (forall t, In t (tasks (after clearCompletedTasks s))
                <-> In t (tasks s) /\ completed t = false)
  /\ completedTasks (after clearCompletedTasks s) = []
  /\ pendingTasks (after clearCompletedTasks s) = pendingTasks s
  /\ after clearCompletedTasks (after clearCompletedTasks s) = after clearCompletedTasks s.
Proof.
  assert (K : forall term l,
             Reference.keep term (filter (fun t => negb (completed t)) l)
             = filter (fun t => negb (completed t)) (Reference.keep term l)).
  { intros term l. unfold Reference.keep.
    induction l as [|x r IH]; simpl; [reflexivity|].
    destruct (completed x) eqn:C; simpl.
    - destruct (Reference.ci_contains (description x) term); simpl;
        [now rewrite C|exact IH].
    - destruct (Reference.ci_contains (description x) term); simpl;
        [now rewrite C, IH | exact IH]. }
  split; [apply filter_todo_all|]. split.
  - intros t. unfold after. simpl. rewrite filter_In, negb_true_iff. reflexivity.
  - unfold completedTasks, pendingTasks. rewrite !allTasks_reference.
    unfold Reference.allTasks, after. simpl.
    rewrite filter_done_reorder, !filter_todo_reorder, K.
    split; [apply filter_done_todo|]. split; [apply filter_todo_todo|].
    unfold with_tasks. simpl. now rewrite filter_todo_todo.
Qed.

(** X8: marking every task completed and then clearing the completed
    ones empties the collection; marking every task pending first makes
    the clearing keep all of them. *)
Theorem markAll_then_clear (s : Store) :
  tasks (after clearCompletedTasks (after (toggleAllTasksCompletion true) s)) = []
  /\ tasks (after clearCompletedTasks (after (toggleAllTasksCompletion false) s))
     = tasks (after (toggleAllTasksCompletion false) s)
  /\ pendingTasks (after (toggleAllTasksCompletion true) s) = []
  /\ completedTasks (after (toggleAllTasksCompletion false) s) = [].
Proof.
  assert (N : forall b (l : list Task),
             filter (fun t => negb (completed t)) (map (with_completed b) l)
             = if b then [] else map (with_completed b) l).
  { intros b l. induction l as [|x r IH]; simpl; [now destruct b|].
    rewrite IH. now destruct b. }
  assert (F : forall (l l' : list Task) p,
             (forall t, In t l' -> In t l) -> filter p l = [] -> filter p l' = []).
  { intros l l' p Hin E. destruct (filter p l') as [|x r] eqn:E'; [reflexivity|].
    assert (Hx : In x (filter p l')) by (rewrite E'; now left).
    apply filter_In in Hx as [Hx Px].
    assert (Hx' : In x (filter p l)) by (apply filter_In; auto).
    rewrite E in Hx'. destruct Hx'. }
  assert (S : forall st t, In t (allTasks st) -> In t (tasks st)).
  { intros st t. rewrite allTasks_reference.
    unfold Reference.allTasks, Reference.reorder, Reference.keep.
    destruct (String.eqb _ "completedFirst");
      [|destruct (String.eqb _ "pendingFirst")];
      rewrite ?in_app_iff, ?filter_In; tauto. }
  unfold after. simpl. split; [apply (N true)|]. split; [apply (N false)|].
  unfold pendingTasks, completedTasks. split.
  - apply (F _ _ _ (S _)). apply (N true).
  - apply (F _ _ _ (S _)). simpl.
    induction (tasks s) as [|x r IH]; simpl; [reflexivity | exact IH].
Qed.

(** ** Ids along the collection *)

Lemma increasing_snoc (l : list Z) (n : Z) :
  StronglySorted Z.lt l -> Forall (fun x => x < n) l ->
  StronglySorted Z.lt (l ++ [n]).
Proof.
  induction 1 as [|x r Hr IH Hx]; intros F; simpl.
  - repeat constructor.
  - inversion F as [|? ? Fx Fr]; subst. constructor; [now apply IH|].
    apply Forall_app. split; [exact Hx | repeat constructor; exact Fx].
Qed.

Lemma increasing_filter (p : Task -> bool) (l : list Task) :
  ids_increasing l -> ids_increasing (filter p l).
Proof.
  unfold ids_increasing. induction l as [|x r IH]; simpl; intros H; [constructor|].
  inversion H as [|? ? Hr Hx]; subst.
  destruct (p x); simpl; [|now apply IH].
  constructor; [now apply IH|].
  apply Forall_forall. intros y Hy. rewrite Forall_forall in Hx. apply Hx.
  apply in_map_iff in Hy as (t & <- & Ht). apply in_map.
  apply filter_In in Ht. tauto.
Qed.

Lemma ids_increasing_step (o : Op) (s : Store) :
  safe_ids 1 (tasks s) ->
  ids_increasing (tasks s) -> ids_increasing (tasks (after (action_of o) s)).
Proof.
  unfold after. intros S H.
  destruct o as [d | i | i | i d | t | c | b |]; simpl.
  - unfold ids_increasing. rewrite map_app. simpl.
    apply increasing_snoc; [exact H|].
    apply Forall_forall. intros x Hx. apply in_map_iff in Hx as (t & <- & Ht).
    pose proof (next_id_above (tasks s) S) as F. rewrite Forall_forall in F.
    now apply F.
  - now apply increasing_filter.
  - unfold toggleTaskCompletion.
    destruct (Arr.find _ (tasks s)); simpl; [|exact H].
    unfold ids_increasing. now rewrite update_found_map.
  - unfold updateTaskDescription.
    destruct (Arr.find _ (tasks s)); simpl; [|exact H].
    unfold ids_increasing. now rewrite update_found_map.
  - exact H.
  - exact H.
  - unfold ids_increasing. rewrite map_map. simpl.
    now rewrite map_ext with (g := id).
  - now apply increasing_filter.
Qed.

Lemma update_found_keeps {A : Type} (P : A -> Prop) (p : A -> bool) (f : A -> A)
      (l : list A) :
  (forall x, P x -> P (f x)) -> Forall P l -> Forall P (Arr.update_found p f l).
Proof.
  intros Hf. induction 1 as [|x r Hx Hr IH]; simpl; [constructor|].
  destruct (p x); constructor; auto.
Qed.

Lemma ids_positive_step (o : Op) (s : Store) :
  safe_ids 1 (tasks s) ->
  Forall (fun t => 1 <= id t) (tasks s) ->
  Forall (fun t => 1 <= id t) (tasks (after (action_of o) s)).
Proof.
  unfold after. intros S H.
  destruct o as [d | i | i | i d | t | c | b |]; simpl.
  - apply Forall_app. split; [exact H|]. constructor; [|constructor]. simpl.
    destruct (next_id_spec (tasks s) S) as [[_ ->] | [E _]]; [lia|].
    apply Exists_exists in E as (t & Ht & ->).
    rewrite Forall_forall in H. specialize (H t Ht). lia.
  - apply Forall_forall. intros t Ht. apply filter_In in Ht as [Ht _].
    rewrite Forall_forall in H. now apply H.
  - unfold toggleTaskCompletion.
    destruct (Arr.find _ (tasks s)); simpl; [|exact H].
    apply update_found_keeps; [|exact H]. intros x Hx. exact Hx.
  - unfold updateTaskDescription.
    destruct (Arr.find _ (tasks s)); simpl; [|exact H].
    apply update_found_keeps; [|exact H]. intros x Hx. exact Hx.
  - exact H.
  - exact H.
  - apply Forall_forall. intros t Ht. apply in_map_iff in Ht as (u & <- & Hu).
    rewrite Forall_forall in H. simpl. now apply H.
  - apply Forall_forall. intros t Ht. apply filter_In in Ht as [Ht _].
    rewrite Forall_forall in H. now apply H.
Qed.

(** X9: starting from the empty collection, after any sequence of fewer
    than 2^53 operations the ids grow strictly along the collection
    (tasks stay in the order they were added) and every id is at least
    1. *)
Theorem ids_increasing_reachable (ops : list Op) :
  Z.of_nat (List.length ops) < 2 ^ 53 ->
  ids_increasing (tasks (apply_ops ops empty_store))
  /\ Forall (fun t => 1 <= id t) (tasks (apply_ops ops empty_store)).
Proof.
  intros B.
  assert (G : forall s,
             safe_ids (List.length ops) (tasks s) ->
             ids_increasing (tasks s) /\ Forall (fun t => 1 <= id t) (tasks s) ->
             ids_increasing (tasks (apply_ops ops s))
             /\ Forall (fun t => 1 <= id t) (tasks (apply_ops ops s))).
  { clear B. induction ops as [|o ops IH]; intros s S [H1 H2]; [split; assumption|].
    simpl in S. apply IH; [now apply safe_ids_step|].
    pose proof (safe_ids_one _ _ S) as S1.
    split; [now apply ids_increasing_step | now apply ids_positive_step]. }
  apply G; [|split; constructor].
  split; [lia | constructor].
Qed.

Lemma ids_increasing_reachable_witness :
  Z.of_nat (List.length [AddTask "a"; AddTask "b"; RemoveTask 1; AddTask "c"]) < 2 ^ 53
  /\ ids_increasing
       (tasks (apply_ops [AddTask "a"; AddTask "b"; RemoveTask 1; AddTask "c"]
                 empty_store))
  /\ Forall (fun t => 1 <= id t)
       (tasks (apply_ops [AddTask "a"; AddTask "b"; RemoveTask 1; AddTask "c"]
                 empty_store)).
Proof.
  assert (B : Z.of_nat (List.length [AddTask "a"; AddTask "b"; RemoveTask 1;
                                     AddTask "c"]) < 2 ^ 53) by (simpl; lia).
  split; [exact B|].
  exact (ids_increasing_reachable
           [AddTask "a"; AddTask "b"; RemoveTask 1; AddTask "c"] B).
Defined.

Lemma next_id_of_range (ts : list Task) (n : nat) :
  Z.of_nat n < 2 ^ 53 ->
  map id ts = map Z.of_nat (seq 1 n) -> next_id ts = Z.of_nat n + 1.
Proof.
  intros B E.
  assert (U : forall t, In t ts -> 1 <= id t <= Z.of_nat n).
  { intros t Ht. apply (in_map id) in Ht. rewrite E in Ht.
    apply in_map_iff in Ht as (k & <- & Hk). apply in_seq in Hk. lia. }
  assert (Sf : safe_ids 1 ts).
  { split; [lia|]. apply Forall_forall. intros t Ht. specialize (U t Ht). lia. }
  destruct (next_id_spec ts Sf) as [[-> H1] | [H1 H2]].
  - destruct n; [exact H1 | discriminate].
  - apply Exists_exists in H1 as (t & Ht & Hn). specialize (U t Ht).
    destruct n as [|n].
    + destruct ts; [destruct Ht | discriminate].
    + assert (I : In (Z.of_nat (S n)) (map id ts)).
      { rewrite E. apply in_map. apply in_seq. lia. }
      apply in_map_iff in I as (u & Hu & Hin).
      rewrite Forall_forall in H2. specialize (H2 u Hin). lia.
Qed.

Lemma apply_ops_app (ops1 ops2 : list Op) (s : Store) :
  apply_ops (ops1 ++ ops2) s = apply_ops ops2 (apply_ops ops1 s).
Proof. unfold apply_ops. apply fold_left_app. Qed.

Lemma combine_append {A B : Type} (l1 l2 : list A) (m1 m2 : list B) :
  List.length l1 = List.length m1 ->
  combine (l1 ++ l2) (m1 ++ m2) = (combine l1 m1 ++ combine l2 m2)%list.
Proof.
  revert m1. induction l1 as [|x l1 IH]; intros [|y m1] H; simpl in *;
    try discriminate; [reflexivity|].
  f_equal. apply IH. lia.
Qed.

Lemma numbered_snoc (ds : list string) (d : string) :
  numbered (ds ++ [d])
  = (numbered ds ++ [mkTask (Z.of_nat (List.length ds) + 1) d false])%list.
Proof.
  unfold numbered. rewrite length_app. simpl List.length.
  rewrite seq_app. simpl seq.
  rewrite combine_append by now rewrite length_seq.
  rewrite map_app. simpl. do 3 f_equal. lia.
Qed.

Lemma map_id_numbered (ds : list string) :
  map id (numbered ds) = map Z.of_nat (seq 1 (List.length ds)).
Proof.
  unfold numbered. rewrite map_map. simpl.
  generalize 1%nat. induction ds as [|d ds IH]; intros k; simpl; [reflexivity|].
  now rewrite IH.
Qed.

(** X10: adding fewer than 2^53 texts [d1 .. dn] to the empty store, in
    this order, gives the tasks with ids 1 .. n, each with its text as
    given and not completed. *)
Theorem addTask_numbers_from_one (ds : list string) :
  Z.of_nat (List.length ds) < 2 ^ 53 ->
  tasks (apply_ops (map AddTask ds) empty_store) = numbered ds.
Proof.
  induction ds as [|d ds IH] using rev_ind; intros B; [reflexivity|].
  rewrite length_app in B. simpl in B.
  rewrite map_app, apply_ops_app.
  change (apply_ops (map AddTask [d]) ?x) with (after (addTask d) x).
  unfold after, addTask. cbn [fst tasks with_tasks].
  rewrite IH by lia. rewrite numbered_snoc. do 3 f_equal.
  apply next_id_of_range; [lia | apply map_id_numbered].
Qed.

Lemma addTask_numbers_from_one_witness :
  Z.of_nat (List.length ["buy milk"; " x "; ""]) < 2 ^ 53
  /\ tasks (apply_ops (map AddTask ["buy milk"; " x "; ""]) empty_store)
     = numbered ["buy milk"; " x "; ""].
Proof.
  assert (B : Z.of_nat (List.length ["buy milk"; " x "; ""]) < 2 ^ 53) by (simpl; lia).
  split; [exact B|].
  exact (addTask_numbers_from_one ["buy milk"; " x "; ""] B).
Defined.

(** ** Views *)

Lemma partition_permutation (l : list Task) :
  Permutation (filter (fun t => completed t) l ++ filter (fun t => negb (completed t)) l) l.
Proof.
  induction l as [|x r IH]; simpl; [constructor|].
  destruct (completed x); simpl.
  - now constructor.
  - apply Permutation_sym, Permutation_cons_app, Permutation_sym, IH.
Qed.

Lemma reorder_permutation (c : string) (l : list Task) :
  Permutation (Reference.reorder c l) l.
Proof.
  unfold Reference.reorder.
  destruct (String.eqb c "completedFirst"); [apply partition_permutation|].
  destruct (String.eqb c "pendingFirst"); [|apply Permutation_refl].
  eapply Permutation_trans; [apply Permutation_app_comm | apply partition_permutation].
Qed.

Lemma allTasks_In (s : Store) (t : Task) :
  In t (allTasks s) <->
  In t (tasks s)
  /\ exists pre mid post,
       description t = pre ++ mid ++ post
       /\ Str.toLowerCase mid = Str.toLowerCase (searchTerm s).
Proof.
  rewrite allTasks_reference. unfold Reference.allTasks.
  rewrite <- ci_contains_spec.
  transitivity (In t (Reference.keep (searchTerm s) (tasks s))).
  - split; intros H.
    + eapply Permutation_in; [apply reorder_permutation | exact H].
    + eapply Permutation_in; [apply Permutation_sym, reorder_permutation | exact H].
  - unfold Reference.keep. apply filter_In.
Qed.


(** X12: the sort criterion only rearranges: under any criterion
    [allTasks] is a permutation of what it is under 'default', which is
    a part of the collection no longer than it. *)
Theorem allTasks_sort_only_reorders (ts : list Task) (term criteria : string) :
  Permutation (allTasks (mkStore ts term criteria)) (allTasks (mkStore ts term "default"))
  /\ List.length (allTasks (mkStore ts term criteria))
     = List.length (allTasks (mkStore ts term "default"))
  /\ (List.length (allTasks (mkStore ts term criteria)) <= List.length ts)%nat.
Proof.
  assert (P : Permutation (allTasks (mkStore ts term criteria))
                          (allTasks (mkStore ts term "default"))).
  { rewrite !allTasks_reference. unfold Reference.allTasks. simpl.
    apply reorder_permutation. }
  split; [exact P|]. split; [now apply Permutation_length|].
  rewrite (Permutation_length P), allTasks_reference.
  unfold Reference.allTasks, Reference.keep. simpl. apply filter_length_le.
Qed.

(** X13: the completed and the pending view split [allTasks]: together
    they hold its tasks, each once, and their lengths add up to its
    length. *)
Theorem completed_pending_partition (s : Store) :
  Permutation (completedTasks s ++ pendingTasks s) (allTasks s)
  /\ (List.length (completedTasks s) + List.length (pendingTasks s))%nat
     = List.length (allTasks s).
Proof.
  assert (P : Permutation (completedTasks s ++ pendingTasks s) (allTasks s))
    by apply partition_permutation.
  split; [exact P|]. rewrite <- (Permutation_length P). symmetry. apply length_app.
Qed.

(** X14: under 'completedFirst' the displayed list is the completed view
    followed by the pending view, under 'pendingFirst' the pending view
    followed by the completed view. *)
Theorem allTasks_is_views_in_sequence (ts : list Task) (term : string) :
  allTasks (mkStore ts term "completedFirst")
  = (completedTasks (mkStore ts term "completedFirst")
     ++ pendingTasks (mkStore ts term "completedFirst"))%list
  /\ allTasks (mkStore ts term "pendingFirst")
     = (pendingTasks (mkStore ts term "pendingFirst")
        ++ completedTasks (mkStore ts term "pendingFirst"))%list.
Proof.
  unfold completedTasks, pendingTasks. rewrite !allTasks_reference.
  unfold Reference.allTasks. cbn [tasks searchTerm sortCriteria].
  rewrite !filter_done_reorder, !filter_todo_reorder. split; reflexivity.
Qed.

(** X15: the search ignores letter case in the term: two terms that
    agree up to case show the same tasks. *)
Theorem search_term_case_irrelevant (ts : list Task) (term1 term2 criteria : string) :
  Str.toLowerCase term1 = Str.toLowerCase term2 ->
  allTasks (mkStore ts term1 criteria) = allTasks (mkStore ts term2 criteria).
Proof.
  intros E. rewrite !allTasks_reference.
  unfold Reference.allTasks, Reference.keep. cbn [tasks searchTerm sortCriteria].
  f_equal. apply filter_ext. intros t.
  now rewrite <- !includes_lower, E.
Qed.

Lemma search_term_case_irrelevant_witness :
  Str.toLowerCase "BuY" = Str.toLowerCase "buy"
  /\ allTasks (mkStore [mkTask 1 "Buy milk" false; mkTask 2 "call" true] "BuY" "default")
     = allTasks (mkStore [mkTask 1 "Buy milk" false; mkTask 2 "call" true] "buy" "default").
Proof.
  split; [reflexivity|].
  apply (search_term_case_irrelevant
           [mkTask 1 "Buy milk" false; mkTask 2 "call" true] "BuY" "buy" "default").
  reflexivity.
Defined.

(** ** Persistence *)

Lemma store_dispatch (a : Action) (p : Page) : store (dispatch a p) = after a (store p).
Proof.
  unfold dispatch, after. destruct (a (store p)) as [s' w]. now destruct w.
Qed.


(** An action that does not wake the watcher has left the collection
    as it was. *)
Lemma quiet_keeps_tasks (o : Op) (s : Store) :
  wakes_watcher (action_of o) s = false -> tasks (after (action_of o) s) = tasks s.
Proof.
  unfold wakes_watcher, after.
  destruct o as [d | i | i | i d | t | c | b |]; simpl; try discriminate;
    try reflexivity.
  - unfold toggleTaskCompletion. destruct (Arr.find _ (tasks s)); simpl;
      [discriminate | reflexivity].
  - unfold updateTaskDescription.
    destruct (Arr.find _ (tasks s)) as [t|] eqn:F; simpl; [|reflexivity].
    rewrite negb_false_iff, String.eqb_eq. intros E.
    apply (update_found_fixed _ _ _ t F).
    unfold with_description. rewrite <- E. apply Task_eta.
Qed.

Lemma dispatch_cases (o : Op) (p : Page) :
  (wakes_watcher (action_of o) (store p) = true
   /\ slot (dispatch (action_of o) p) = save (tasks (after (action_of o) (store p)))
   /\ setItem_calls (dispatch (action_of o) p)
      = JSON.stringify (tasks (after (action_of o) (store p))) :: setItem_calls p)
  \/ (wakes_watcher (action_of o) (store p) = false
      /\ slot (dispatch (action_of o) p) = slot p
      /\ setItem_calls (dispatch (action_of o) p) = setItem_calls p).
Proof.
  unfold dispatch, wakes_watcher, after.
  destruct (action_of o (store p)) as [s' w]. destruct w; simpl; auto.
Qed.

Lemma reloads_dispatch (o : Op) (p : Page) :
  reloads p -> reloads (dispatch (action_of o) p).
Proof.
  unfold reloads. intros H. rewrite store_dispatch.
  destruct (dispatch_cases o p) as [(W & S & _) | (W & S & _)]; rewrite S.
  - apply useTaskStore_save.
  - now rewrite (quiet_keeps_tasks o _ W).
Qed.




(** X17: once the watcher has written, the slot always holds the JSON
    text of the whole current collection (a full overwrite, never a
    merge), and no operation writes more than once. *)
Theorem slot_mirrors_collection (ops : list Op) (p : Page) :
  mirrors p ->
  mirrors (dispatch_all ops p)
  /\ (List.length (setItem_calls (dispatch_all ops p))
      <= List.length (setItem_calls p) + List.length ops)%nat.
Proof.
  revert p. induction ops as [|o ops IH]; intros p H; [split; [exact H | simpl; lia]|].
  simpl.
  assert (M : mirrors (dispatch (action_of o) p)
              /\ (List.length (setItem_calls (dispatch (action_of o) p))
                  <= S (List.length (setItem_calls p)))%nat).
  { unfold mirrors in *. rewrite store_dispatch.
    destruct (dispatch_cases o p) as [(W & S & C) | (W & S & C)]; rewrite S, C.
    - split; [split; reflexivity | simpl; lia].
    - rewrite (quiet_keeps_tasks o _ W). split; [exact H | lia]. }
  destruct M as [M L]. destruct (IH _ M) as [M' L']. split; [exact M' | lia].
Qed.

Lemma slot_mirrors_collection_witness :
  mirrors (mkPage empty_store None [])
  /\ mirrors (dispatch_all [AddTask "a"; ToggleTaskCompletion 5; ClearCompletedTasks]
                (mkPage empty_store None []))
  /\ (List.length
        (setItem_calls
           (dispatch_all [AddTask "a"; ToggleTaskCompletion 5; ClearCompletedTasks]
              (mkPage empty_store None [])))
      <= List.length (setItem_calls (mkPage empty_store None []))
         + List.length [AddTask "a"; ToggleTaskCompletion 5; ClearCompletedTasks])%nat.
Proof.
  assert (H : mirrors (mkPage empty_store None [])) by exact I.
  split; [exact H|].
  exact (slot_mirrors_collection
           [AddTask "a"; ToggleTaskCompletion 5; ClearCompletedTasks]
           (mkPage empty_store None []) H).
Defined.

(** X18: different collections are never saved as the same text. *)
Theorem stringify_injective (ts1 ts2 : list Task) :
  JSON.stringify ts1 = JSON.stringify ts2 -> ts1 = ts2.
Proof.
  intros E. apply (f_equal JSON.parse) in E. rewrite !parse_stringify in E.
  assert (E' : JSON.of_tasks ts1 = JSON.of_tasks ts2) by congruence.
  apply (f_equal JSON.as_tasks) in E'.
  rewrite !as_tasks_of_tasks in E'. congruence.
Qed.

Lemma stringify_injective_witness :
  JSON.stringify [mkTask 1 "a" false] = JSON.stringify [mkTask 1 "a" false]
  /\ [mkTask 1 "a" false] = [mkTask 1 "a" false].
Proof.
  split; [reflexivity|].
  apply (stringify_injective [mkTask 1 "a" false] [mkTask 1 "a" false]).
  reflexivity.
Defined.

(** X19: only the empty string counts as no data: a slot holding
    nothing but JSON white space makes the initialisation throw. *)
Theorem load_blank_slot_throws (text : string) :
  Str.truthy text = true -> JSON.skip_ws text = "" ->
  load (Some text) = JSON.Throws JSON.SyntaxError
  /\ useTaskStore (Some text) = JSON.Throws JSON.SyntaxError.
Proof.
  intros T W.
  assert (L : load (Some text) = JSON.Throws JSON.SyntaxError).
  { unfold load. rewrite T. unfold JSON.parse. cbn [JSON.parse_value].
    now rewrite W. }
  split; [exact L|]. unfold useTaskStore. now rewrite L.
Qed.

Lemma load_blank_slot_throws_witness :
  Str.truthy "  " = true /\ JSON.skip_ws "  " = ""
  /\ load (Some "  ") = JSON.Throws JSON.SyntaxError
  /\ useTaskStore (Some "  ") = JSON.Throws JSON.SyntaxError.
Proof.
  split; [reflexivity|]. split; [reflexivity|].
  apply (load_blank_slot_throws "  "); reflexivity.
Defined.

(** * Properties of the component *)

Lemma trim_empty_iff_blank (s : string) :
  String.eqb (Str.trim s) "" = Str.blank s.
Proof.
  destruct (Str.blank s) eqn:B.
  - now rewrite (trim_blank s B).
  - rewrite <- blank_trim in B. destruct (Str.trim s); [discriminate | reflexivity].
Qed.

(** X20: [handleAddTask] on a blank input raises the alert and changes
    nothing else; on any other input it appends one pending task whose
    description is the input exactly as typed (not trimmed), with the
    next id, writes the slot and empties the input. *)
Theorem handleAddTask_spec (a : App) :
  (Str.blank (newTaskDescription a) = true
   /\ handleAddTask a
      = mkApp (page a) (newTaskDescription a) (currentFilter a) (editingTaskId a)
              (editingTaskDescription a) (alert_add :: alerts a))
  \/ (Str.blank (newTaskDescription a) = false
      /\ tasks (store (page (handleAddTask a)))
         = (tasks (store (page a))
            ++ [mkTask (next_id (tasks (store (page a)))) (newTaskDescription a) false])%list
      /\ slot (page (handleAddTask a)) = save (tasks (store (page (handleAddTask a))))
      /\ newTaskDescription (handleAddTask a) = ""
      /\ alerts (handleAddTask a) = alerts a
      /\ editingTaskId (handleAddTask a) = editingTaskId a
      /\ currentFilter (handleAddTask a) = currentFilter a).
Proof.
  unfold handleAddTask. rewrite trim_empty_iff_blank.
  destruct (Str.blank (newTaskDescription a)); [left | right]; simpl;
    repeat split; reflexivity.
Qed.

(** X21: [saveEdit] does nothing when no task is in edition; on a blank
    buffer it raises the alert, stays in edition and leaves the store
    alone; otherwise it hands the buffer to [updateTaskDescription] for
    the task in edition and leaves edition. *)
Theorem saveEdit_spec (a : App) :
  (editingTaskId a = None /\ saveEdit a = a)
  \/ (exists i,
        editingTaskId a = Some i
        /\ Str.blank (editingTaskDescription a) = true
        /\ saveEdit a
           = mkApp (page a) (newTaskDescription a) (currentFilter a) (Some i)
                   (editingTaskDescription a) (alert_edit :: alerts a))
  \/ (exists i,
        editingTaskId a = Some i
        /\ Str.blank (editingTaskDescription a) = false
        /\ saveEdit a
           = mkApp (dispatch (updateTaskDescription i (editingTaskDescription a)) (page a))
                   (newTaskDescription a) (currentFilter a) None
                   (editingTaskDescription a) (alerts a)).
Proof.
  unfold saveEdit. destruct (editingTaskId a) as [i|] eqn:E; [|now left].
  right. rewrite trim_empty_iff_blank.
  destruct (Str.blank (editingTaskDescription a)); [left | right]; exists i;
    repeat split; reflexivity.
Qed.

(** X22: [editTask] always ends with the clicked task in edition and its
    description in the buffer.  An edition of another task that was
    pending is first committed by [saveEdit]; if its buffer was blank the
    alert is raised, that task keeps its description and the typed text
    is dropped. *)
Theorem editTask_spec (task : Task) (a : App) :
  editingTaskId (editTask task a) = Some (id task)
  /\ editingTaskDescription (editTask task a) = description task
  /\ newTaskDescription (editTask task a) = newTaskDescription a
  /\ currentFilter (editTask task a) = currentFilter a
  /\ ((page (editTask task a) = page a /\ alerts (editTask task a) = alerts a
       /\ (editingTaskId a = None \/ editingTaskId a = Some (id task)))
      \/ (exists i,
            editingTaskId a = Some i /\ i <> id task
            /\ Str.blank (editingTaskDescription a) = true
            /\ page (editTask task a) = page a
            /\ alerts (editTask task a) = alert_edit :: alerts a)
      \/ (exists i,
            editingTaskId a = Some i /\ i <> id task
            /\ Str.blank (editingTaskDescription a) = false
            /\ page (editTask task a)
               = dispatch (updateTaskDescription i (editingTaskDescription a)) (page a)
            /\ alerts (editTask task a) = alerts a)).
Proof.
  unfold editTask.
  destruct (editingTaskId a) as [i|] eqn:E.
  - destruct (Z.eqb_spec i (id task)) as [Ei | Ni]; cbn [negb].
    + repeat split; try reflexivity. left. repeat split. right. now rewrite Ei.
    + unfold saveEdit. rewrite E, trim_empty_iff_blank.
      destruct (Str.blank (editingTaskDescription a)) eqn:B; cbn;
        repeat split; try reflexivity; right; [left | right]; exists i;
        repeat split; auto.
  - repeat split; try reflexivity. left. repeat split. now left.
Qed.

(** Every event is at most one store operation, and the text it
    carries has passed the caller's check. *)
Lemma handle_is_one_operation (e : Event) (a : App) :
  page (handle e a) = page a
  \/ exists o, caller_validated o = true
               /\ page (handle e a) = dispatch (action_of o) (page a).
Proof.
  assert (S : page (saveEdit a) = page a
              \/ exists o, caller_validated o = true
                           /\ page (saveEdit a) = dispatch (action_of o) (page a)).
  { unfold saveEdit. destruct (editingTaskId a) as [i|]; [|now left].
    destruct (String.eqb (Str.trim (editingTaskDescription a)) "") eqn:T; [now left|].
    right. exists (UpdateTaskDescription i (editingTaskDescription a)).
    split; [|reflexivity]. simpl. unfold caller_accepts. now rewrite T. }
  assert (Ed : forall task,
             page (editTask task a) = page a
             \/ exists o, caller_validated o = true
                          /\ page (editTask task a) = dispatch (action_of o) (page a)).
  { intros task. unfold editTask. destruct (editingTaskId a) as [i|]; [|now left].
    destruct (negb (i =? id task)); [exact S | now left]. }
  destruct e as [text | | text | b | b | b | | row | text | | row | row]; simpl.
  - now left.
  - unfold handleAddTask.
    destruct (String.eqb (Str.trim (newTaskDescription a)) "") eqn:T; simpl; [now left|].
    right. exists (AddTask (newTaskDescription a)). split; [|reflexivity].
    simpl. unfold caller_accepts. now rewrite T.
  - right. exists (SetSearchTerm text). split; reflexivity.
  - now left.
  - right. exists (SetSortCriteria (sort_value b)). split; reflexivity.
  - right. exists (ToggleAllTasksCompletion b). split; reflexivity.
  - right. exists ClearCompletedTasks. split; reflexivity.
  - destruct (nth_error (filteredTasks a) row) as [task|]; [|now left].
    right. exists (ToggleTaskCompletion (id task)). split; reflexivity.
  - now left.
  - exact S.
  - destruct (nth_error (filteredTasks a) row) as [task|]; [|now left].
    destruct (editingTaskId a) as [i|] eqn:E.
    + destruct (i =? id task); [now left|]. apply Ed.
    + apply Ed.
  - destruct (nth_error (filteredTasks a) row) as [task|]; [|now left].
    right. exists (RemoveTask (id task)). split; reflexivity.
Qed.

Lemma handle_all_invariant (P : Page -> Prop) :
  (forall o p, caller_validated o = true -> P p -> P (dispatch (action_of o) p)) ->
  forall es a, P (page a) -> P (page (handle_all es a)).
Proof.
  intros Step es. induction es as [|e es IH]; intros a H; [exact H|].
  simpl. apply IH.
  destruct (handle_is_one_operation e a) as [-> | (o & V & ->)]; [exact H|].
  now apply Step.
Qed.

(** X23: through the component no blank description ever enters the
    store: if no task has an empty or white-space-only description, none
    has after any sequence of events, whatever the user types. *)
Theorem component_never_stores_blank (es : list Event) (a : App) :
  no_blank_description (tasks (store (page a))) ->
  no_blank_description (tasks (store (page (handle_all es a)))).
Proof.
  apply (handle_all_invariant (fun p => no_blank_description (tasks (store p)))).
  intros o p V H. rewrite store_dispatch. now apply no_blank_step.
Qed.

Lemma component_never_stores_blank_witness :
  no_blank_description (tasks (store (page (mount (mkPage empty_store None [])))))
  /\ no_blank_description
       (tasks (store (page
          (handle_all
             [TypeNewTask "  "; SubmitNewTask; TypeNewTask " milk"; SubmitNewTask;
              ClickEdit 0; TypeEdit "   "; CommitEdit; TypeEdit "bread "; CommitEdit]
             (mount (mkPage empty_store None [])))))).
Proof.
  assert (H : no_blank_description
                (tasks (store (page (mount (mkPage empty_store None []))))))
    by constructor.
  split; [exact H|].
  exact (component_never_stores_blank
           [TypeNewTask "  "; SubmitNewTask; TypeNewTask " milk"; SubmitNewTask;
            ClickEdit 0; TypeEdit "   "; CommitEdit; TypeEdit "bread "; CommitEdit]
           (mount (mkPage empty_store None [])) H).
Defined.

Lemma handle_all_invariant_room (P : nat -> Page -> Prop) :
  (forall k p, P (S k) p -> P k p) ->
  (forall k o p, P (S k) p -> P k (dispatch (action_of o) p)) ->
  forall es a, P (List.length es) (page a) -> P O (page (handle_all es a)).
Proof.
  intros Less Step es. induction es as [|e es IH]; intros a H; [exact H|].
  simpl in *. apply IH.
  destruct (handle_is_one_operation e a) as [-> | (o & _ & ->)];
    [now apply Less | now apply Step].
Qed.

(** X24: on a page whose slot reloads to its collection, whose ids are
    pairwise distinct and leave room for as many new ids as events
    follow (every id lies in [-2^53, 2^53 - n] for n events), after the
    events the slot still reloads to the collection and the ids are
    still pairwise distinct. *)
Theorem component_keeps_page_consistent (es : list Event) (a : App) :
  reloads (page a) /\ unique_ids (tasks (store (page a))) ->
  safe_ids (List.length es) (tasks (store (page a))) ->
  reloads (page (handle_all es a))
  /\ unique_ids (tasks (store (page (handle_all es a)))).
Proof.
  intros [R U] Sf.
  assert (G : reloads (page (handle_all es a))
              /\ unique_ids (tasks (store (page (handle_all es a))))
              /\ safe_ids O (tasks (store (page (handle_all es a))))).
  { apply (handle_all_invariant_room
             (fun k p => reloads p /\ unique_ids (tasks (store p))
                         /\ safe_ids k (tasks (store p)))).
    - intros k p (Rp & Up & Sp).
      split; [exact Rp|]. split; [exact Up | now apply safe_ids_less].
    - intros k o p (Rp & Up & Sp). split; [now apply reloads_dispatch|].
      rewrite store_dispatch. split.
      + apply unique_ids_step; [now apply (safe_ids_one k) | exact Up].
      + now apply safe_ids_step.
    - split; [exact R|]. split; [exact U | exact Sf]. }
  destruct G as (R' & U' & _). split; assumption.
Qed.

Lemma component_keeps_page_consistent_witness :
  (reloads (page (mount (mkPage empty_store None [])))
   /\ unique_ids (tasks (store (page (mount (mkPage empty_store None []))))))
  /\ safe_ids
       (List.length [TypeNewTask "a"; SubmitNewTask; ClickCheckbox 0; ClickDelete 3;
                     ClickSort CompletadasPrimero; TypeSearch "A"])
       (tasks (store (page (mount (mkPage empty_store None [])))))
  /\ reloads (page (handle_all
                      [TypeNewTask "a"; SubmitNewTask; ClickCheckbox 0; ClickDelete 3;
                       ClickSort CompletadasPrimero; TypeSearch "A"]
                      (mount (mkPage empty_store None []))))
  /\ unique_ids
       (tasks (store (page
          (handle_all
             [TypeNewTask "a"; SubmitNewTask; ClickCheckbox 0; ClickDelete 3;
              ClickSort CompletadasPrimero; TypeSearch "A"]
             (mount (mkPage empty_store None [])))))).
Proof.
  assert (H : reloads (page (mount (mkPage empty_store None [])))
              /\ unique_ids (tasks (store (page (mount (mkPage empty_store None [])))))).
  { split; [reflexivity | constructor]. }
  assert (Sf : safe_ids
       (List.length [TypeNewTask "a"; SubmitNewTask; ClickCheckbox 0; ClickDelete 3;
                     ClickSort CompletadasPrimero; TypeSearch "A"])
       (tasks (store (page (mount (mkPage empty_store None [])))))).
  { split; [simpl; lia | constructor]. }
  split; [exact H|]. split; [exact Sf|].
  exact (component_keeps_page_consistent
           [TypeNewTask "a"; SubmitNewTask; ClickCheckbox 0; ClickDelete 3;
            ClickSort CompletadasPrimero; TypeSearch "A"]
           (mount (mkPage empty_store None [])) H Sf).
Defined.

(** ** The displayed list *)

Lemma allTasks_incl (s : Store) : incl (allTasks s) (tasks s).
Proof. intros t H. now apply allTasks_In in H. Qed.

Lemma filteredTasks_incl (a : App) : incl (filteredTasks a) (tasks (store (page a))).
Proof.
  intros t H. apply allTasks_incl. unfold filteredTasks in H.
  destruct (String.eqb (currentFilter a) "completed");
    [|destruct (String.eqb (currentFilter a) "pending")].
  - unfold completedTasks in H. now apply filter_In in H.
  - unfold pendingTasks in H. now apply filter_In in H.
  - exact H.
Qed.

(** X25: the list on screen is, by filter button, the whole view, the
    pending view or the completed view; a freshly set up component
    shows the whole view; and whatever the filter holds, only tasks of
    the collection are shown. *)
Theorem filteredTasks_spec (a : App) (b : FilterButton) (p : Page) :
  filteredTasks (handle (ClickFilter b) a)
  = match b with
    | Todas => allTasks (store (page a))
    | Pendientes => pendingTasks (store (page a))
    | Completadas => completedTasks (store (page a))
    end
  /\ filteredTasks (mount p) = allTasks (store p)
  /\ incl (filteredTasks a) (allTasks (store (page a)))
  /\ incl (filteredTasks a) (tasks (store (page a))).
Proof.
  split; [now destruct b|]. split; [reflexivity|].
  split; [|apply filteredTasks_incl].
  intros t H. unfold filteredTasks in H.
  destruct (String.eqb (currentFilter a) "completed");
    [|destruct (String.eqb (currentFilter a) "pending")].
  - unfold completedTasks in H. now apply filter_In in H.
  - unfold pendingTasks in H. now apply filter_In in H.
  - exact H.
Qed.

(** X26: deleting a displayed row removes its id from the collection
    and from the screen, and touches no task of another id. *)
Theorem delete_row_spec (a : App) (row : nat) (task : Task) :
  nth_error (filteredTasks a) row = Some task ->
  ~ In (id task) (map id (tasks (store (page (handle (ClickDelete row) a)))))
  /\ ~ In (id task) (map id (filteredTasks (handle (ClickDelete row) a)))
  /\ forall t, id t <> id task ->
               (In t (tasks (store (page (handle (ClickDelete row) a))))
                <-> In t (tasks (store (page a)))).
Proof.
  intros H.
  assert (E : store (page (handle (ClickDelete row) a))
              = after (removeTask (id task)) (store (page a))).
  { cbn [handle]. rewrite H. cbn [on_page page]. apply store_dispatch. }
  assert (F : forall t, In t (filteredTasks (handle (ClickDelete row) a)) ->
                        In t (tasks (after (removeTask (id task)) (store (page a))))).
  { intros t Ht. rewrite <- E. now apply filteredTasks_incl. }
  rewrite E.
  destruct (removeTask_parts (store (page a)) (id task)) as (R1 & R2 & _).
  split; [exact R1|]. split.
  - intros I. apply in_map_iff in I as (u & Hu & Hin).
    apply R1. apply in_map_iff. exists u. split; [exact Hu | now apply F].
  - intros t Ht. rewrite R2. tauto.
Qed.

Lemma delete_row_spec_witness :
  nth_error
    (filteredTasks
       (mount (mkPage (mkStore [mkTask 1 "a" false; mkTask 2 "b" true] "" "default")
                      None []))) 1
  = Some (mkTask 2 "b" true)
  /\ ~ In 2 (map id (tasks (store (page
         (handle (ClickDelete 1)
            (mount (mkPage (mkStore [mkTask 1 "a" false; mkTask 2 "b" true]
                                    "" "default") None [])))))))
  /\ ~ In 2 (map id (filteredTasks
         (handle (ClickDelete 1)
            (mount (mkPage (mkStore [mkTask 1 "a" false; mkTask 2 "b" true]
                                    "" "default") None [])))))
  /\ forall t, id t <> 2 ->
       (In t (tasks (store (page
           (handle (ClickDelete 1)
              (mount (mkPage (mkStore [mkTask 1 "a" false; mkTask 2 "b" true]
                                      "" "default") None []))))))
        <-> In t [mkTask 1 "a" false; mkTask 2 "b" true]).
Proof.
  assert (H : nth_error
                (filteredTasks
                   (mount (mkPage (mkStore [mkTask 1 "a" false; mkTask 2 "b" true]
                                           "" "default") None []))) 1
              = Some (mkTask 2 "b" true)) by reflexivity.
  split; [exact H|].
  exact (delete_row_spec
           (mount (mkPage (mkStore [mkTask 1 "a" false; mkTask 2 "b" true]
                                   "" "default") None []))
           1 (mkTask 2 "b" true) H).
Defined.

Lemma unique_id_same_task (l : list Task) (t u : Task) :
  unique_ids l -> In t l -> In u l -> id t = id u -> t = u.
Proof.
  unfold unique_ids. induction l as [|x r IH]; simpl; [intros _ []|].
  intros D Ht Hu E. inversion D as [|? ? Hx Dr]; subst.
  destruct Ht as [-> | Ht], Hu as [-> | Hu]; auto.
  - exfalso. apply Hx. rewrite E. now apply in_map.
  - exfalso. apply Hx. rewrite <- E. now apply in_map.
Qed.

(** X27: when ids are pairwise distinct, ticking the checkbox of a
    displayed row flips that very task; under the filter 'completed' or
    'pending' the row therefore leaves the screen. *)
Theorem checkbox_row_spec (a : App) (row : nat) (task : Task) :
  unique_ids (tasks (store (page a))) ->
  nth_error (filteredTasks a) row = Some task ->
  (forall u, In u (tasks (store (page (handle (ClickCheckbox row) a)))) ->
             id u = id task ->
             u = mkTask (id task) (description task) (negb (completed task)))
  /\ In (mkTask (id task) (description task) (negb (completed task)))
        (tasks (store (page (handle (ClickCheckbox row) a))))
  /\ (currentFilter a = "completed" \/ currentFilter a = "pending" ->
      ~ In (id task) (map id (filteredTasks (handle (ClickCheckbox row) a)))).
Proof.
  intros U H.
  assert (Hin : In task (tasks (store (page a)))).
  { apply filteredTasks_incl. eapply nth_error_In. exact H. }
  destruct (toggle_first_with_id (store (page a)) (id task)
              (in_map id _ _ Hin)) as (l1 & t & l2 & E & Ht & Hn & Ha & _).
  assert (Et : t = task).
  { apply (unique_id_same_task _ _ _ U); [|exact Hin | exact Ht].
    rewrite E. apply in_elt. }
  subst t.
  set (a' := handle (ClickCheckbox row) a).
  assert (Es : store (page a') = after (toggleTaskCompletion (id task)) (store (page a))).
  { unfold a'. cbn [handle]. rewrite H. cbn [on_page page]. apply store_dispatch. }
  assert (Ef : currentFilter a' = currentFilter a).
  { unfold a'. cbn [handle]. now rewrite H. }
  set (flipped := mkTask (id task) (description task) (negb (completed task))).
  assert (Tk : tasks (store (page a')) = (l1 ++ flipped :: l2)%list).
  { rewrite Es, Ha. reflexivity. }
  assert (Only : forall u, In u (tasks (store (page a'))) -> id u = id task -> u = flipped).
  { intros u Hu Eu.
    assert (U' : unique_ids (tasks (store (page a')))).
    { rewrite Es. now apply unique_ids_toggle. }
    apply (unique_id_same_task _ _ _ U' Hu); [|exact Eu].
    rewrite Tk. apply in_elt. }
  split; [exact Only|]. split; [rewrite Tk; apply in_elt|].
  intros F I. apply in_map_iff in I as (u & Eu & Hu).
  pose proof (Only u (filteredTasks_incl a' u Hu) Eu) as ->.
  unfold filteredTasks in Hu, H. rewrite Ef in Hu.
  destruct F as [F | F]; rewrite F in Hu, H; simpl in Hu, H.
  - unfold completedTasks in Hu, H. apply filter_In in Hu as [_ Cu].
    apply nth_error_In, filter_In in H as [_ Ct]. simpl in Cu.
    rewrite Ct in Cu. discriminate.
  - unfold pendingTasks in Hu, H. apply filter_In in Hu as [_ Cu].
    apply nth_error_In, filter_In in H as [_ Ct]. simpl in Cu.
    destruct (completed task); discriminate.
Qed.

Lemma checkbox_row_spec_witness :
  unique_ids
    (tasks (store (page
       (handle (ClickFilter Completadas)
          (mount (mkPage (mkStore [mkTask 1 "a" false; mkTask 2 "b" true] "" "default")
                         None []))))))
  /\ nth_error
       (filteredTasks
          (handle (ClickFilter Completadas)
             (mount (mkPage (mkStore [mkTask 1 "a" false; mkTask 2 "b" true]
                                     "" "default") None [])))) 0
     = Some (mkTask 2 "b" true)
  /\ In (mkTask 2 "b" false)
        (tasks (store (page
           (handle (ClickCheckbox 0)
              (handle (ClickFilter Completadas)
                 (mount (mkPage (mkStore [mkTask 1 "a" false; mkTask 2 "b" true]
                                         "" "default") None [])))))))
  /\ ~ In 2 (map id (filteredTasks
         (handle (ClickCheckbox 0)
            (handle (ClickFilter Completadas)
               (mount (mkPage (mkStore [mkTask 1 "a" false; mkTask 2 "b" true]
                                       "" "default") None [])))))).
Proof.
  assert (U : unique_ids
    (tasks (store (page
       (handle (ClickFilter Completadas)
          (mount (mkPage (mkStore [mkTask 1 "a" false; mkTask 2 "b" true] "" "default")
                         None []))))))).
  { unfold unique_ids. simpl. repeat constructor; simpl; lia. }
  assert (H : nth_error
       (filteredTasks
          (handle (ClickFilter Completadas)
             (mount (mkPage (mkStore [mkTask 1 "a" false; mkTask 2 "b" true]
                                     "" "default") None [])))) 0
     = Some (mkTask 2 "b" true)) by reflexivity.
  split; [exact U|]. split; [exact H|].
  pose proof (checkbox_row_spec
                (handle (ClickFilter Completadas)
                   (mount (mkPage (mkStore [mkTask 1 "a" false; mkTask 2 "b" true]
                                           "" "default") None [])))
                0 (mkTask 2 "b" true) U H) as (_ & I & N).
  split; [exact I|]. apply N. left. reflexivity.
Defined.
